(** * Arbitrum extensions of the state database (package [state])

    A shallow embedding of the Arbitrum part of the state database: the Stylus
    program prefix, the map of newly activated wasms with its journal
    entry, the Stylus page counters, the unexpected balance delta, the
    storage iteration helper and the cache of recently used wasms.

    Go values are modelled as follows.
    - [[]byte] is [list byte]; a nil slice and an empty slice are both [[]].
    - [common.Hash] ([[32]byte]) is the 256-bit number its bytes spell in
      big-endian order, a value of [N].
    - [rawdb.WasmTarget] (a Go string) is [string].
    - a Go map is a [gmap]; a map value that may be nil is an [option].
    - [uint16] is a [Z] in [0, 2^16), the wrap-around written out.
    - [error] is [option error], [None] being Go's nil.
    - pointers ([*big.Int], [*lru.BasicLRU]) are locations of a typed store. *)

From Stdlib Require Import ZArith NArith.
From Stdlib.Strings Require Import Byte.
From stdpp Require Import gmap strings list fin_maps fin_sets.

#[local] Open Scope Z_scope.

Abbreviation bytes := (list byte) (only parsing).
Abbreviation Hash := N (only parsing).
Abbreviation WasmTarget := string (only parsing).
Abbreviation loc := positive (only parsing).

#[global] Instance byte_eq_dec : EqDecision byte := Byte.byte_eq_dec.

(** The errors the modelled functions build with [errors.New] and
    [fmt.Errorf]; [ErrExternal] stands for an error handed up from a
    collaborator (trie, rlp). *)
Inductive error : Type :=
  | ErrNotStylusProgram
  | ErrInconsistentTargets
  | ErrAsmMissing (moduleHash : Hash) (target : WasmTarget)
  | ErrExternal (msg : string).

(** ** Stylus prefix *)

Module Stylus.

Definition stylusEOFMagic : byte := xef.
Definition stylusEOFMagicSuffix : byte := xf0.
Definition stylusEOFVersion : byte := x00.

Definition StylusDiscriminant : bytes :=
  [stylusEOFMagic; stylusEOFMagicSuffix; stylusEOFVersion].

(** [bytes.Equal] *)
Definition bytes_Equal (a b : bytes) : bool := bool_decide (a = b).

Definition IsStylusProgram (b : bytes) : bool :=
  if (length b <? length StylusDiscriminant + 1)%nat then false
  else bytes_Equal (take 3 b) StylusDiscriminant.

(** The index expression [b[3]]; it is only evaluated behind the length
    check of [IsStylusProgram], the default is never returned there. *)
Definition index (b : bytes) (i : nat) : byte := nth i b x00.

Definition StripStylusPrefix (b : bytes) : bytes * byte * option error :=
  if negb (IsStylusProgram b) then ([], x00, Some ErrNotStylusProgram)
  else (drop 4 b, index b 3, None).

(** [bytes.Clone] copies the discriminant, [append] adds the dictionary. *)
Definition NewStylusPrefix (dictionary : byte) : bytes :=
  StylusDiscriminant ++ [dictionary].

End Stylus.

(** ** The state database, as far as the Arbitrum extensions touch it *)

(** [map[rawdb.WasmTarget][]byte]: [None] is the nil map. *)
Abbreviation ActivatedWasm := (option (gmap string (list byte))) (only parsing).

(** The journal entries: [wasmActivation] is the one appended here, the
    other kinds of the journal are kept opaque. *)
Inductive journalEntry : Type :=
  | wasmActivation (moduleHash : Hash)
  | otherChange (kind : N).

Record ArbitrumExtraData : Type := mkArbitrumExtraData {
  unexpectedBalanceDelta : loc;   (* *big.Int *)
  openWasmPages : Z;              (* uint16 *)
  everWasmPages : Z;              (* uint16 *)
  activatedWasms : gmap N (option (gmap string (list byte)));
}.

Record StateDB : Type := mkStateDB {
  arbExtraData : ArbitrumExtraData;
  journal : list journalEntry;
  db_ActivatedAsm : WasmTarget -> Hash -> bytes;   (* s.db.ActivatedAsm *)
}.

Definition set_activatedWasms
    (m : gmap N (option (gmap string (list byte)))) (s : StateDB) : StateDB :=
  let x := arbExtraData s in
  mkStateDB
    (mkArbitrumExtraData (unexpectedBalanceDelta x) (openWasmPages x)
       (everWasmPages x) m)
    (journal s) (db_ActivatedAsm s).

Definition set_pages (open ever : Z) (s : StateDB) : StateDB :=
  let x := arbExtraData s in
  mkStateDB
    (mkArbitrumExtraData (unexpectedBalanceDelta x) open ever (activatedWasms x))
    (journal s) (db_ActivatedAsm s).

(** Modelled from the spec: [journal.append] (journal.go is not among the
    sources). "Append(entry): adds one entry to the tail"; an activation
    entry names no account, so the set of dirtied accounts is not touched. *)
Definition journal_append (e : journalEntry) (s : StateDB) : StateDB :=
  mkStateDB (arbExtraData s) (journal s ++ [e]) (db_ActivatedAsm s).

(** ** Newly activated wasms *)

Module Activation.

(** The entries of a possibly nil map: reading a nil map finds nothing. *)
Definition entries (m : ActivatedWasm) : gmap string (list byte) := default ∅ m.

(** [len(m)] *)
Definition len (m : ActivatedWasm) : nat := size (entries m).

(** [_, ok := m[target]] *)
Definition has_key (m : ActivatedWasm) (target : WasmTarget) : bool :=
  bool_decide (is_Some (entries m !! target)).

(** The keys a [range] over [m] yields, in one of its orders. *)
Definition range_keys (m : ActivatedWasm) : list WasmTarget :=
  (map_to_list (entries m)).*1.

(** The targets a bundle has entries for. *)
Definition targets (m : ActivatedWasm) : gset string := dom (entries m).

(** The flag [inconsistent] of [ActivateWasm] once its inner loop is over:
    the lengths differ, or a target of the previous map is missing from the
    new one. The loop leaves at the first missing target; the flag does not
    depend on the order of the range. *)
Definition inconsistent (asmMap previouslyActivated : ActivatedWasm) : bool :=
  if negb (len asmMap =? len previouslyActivated)%nat then true
  else existsb (fun target => negb (has_key asmMap target))
         (range_keys previouslyActivated).

(** What the outer [range] of [ActivateWasm] can hand over first: nothing
    when the map is empty, else the value of any of its keys (Go leaves the
    order of a map range open). *)
Definition range_first
    (m : gmap N (option (gmap string (list byte)))) (first : option ActivatedWasm) : Prop :=
  match first with
  | None => m = ∅
  | Some previouslyActivated => exists h, m !! h = Some previouslyActivated
  end.

(** One order a range can take: that of [map_to_list]. *)
Definition range_head
    (m : gmap N (option (gmap string (list byte)))) : option ActivatedWasm :=
  snd <$> head (map_to_list m).

(** The part of [ActivateWasm] after the consistency check. *)
Definition insert_if_absent
    (moduleHash : Hash) (asmMap : ActivatedWasm) (s : StateDB) : StateDB * option error :=
  match activatedWasms (arbExtraData s) !! moduleHash with
  | Some _ => (s, None)
  | None =>
      (journal_append (wasmActivation moduleHash)
         (set_activatedWasms (<[moduleHash := asmMap]> (activatedWasms (arbExtraData s))) s),
       None)
  end.

(** [ActivateWasm], given the entry its outer range yields first. The body
    of that loop runs for this one entry only: it returns on an
    inconsistency and breaks otherwise. *)
Definition ActivateWasm_from (first : option ActivatedWasm)
    (moduleHash : Hash) (asmMap : ActivatedWasm) (s : StateDB) : StateDB * option error :=
  match first with
  | Some previouslyActivated =>
      if inconsistent asmMap previouslyActivated
      then (s, Some ErrInconsistentTargets)
      else insert_if_absent moduleHash asmMap s
  | None => insert_if_absent moduleHash asmMap s
  end.

(** [ActivateWasm] under the range order of [map_to_list]. *)
Definition ActivateWasm
    (moduleHash : Hash) (asmMap : ActivatedWasm) (s : StateDB) : StateDB * option error :=
  ActivateWasm_from (range_head (activatedWasms (arbExtraData s))) moduleHash asmMap s.

Definition ActivatedAsm (target : WasmTarget) (moduleHash : Hash) (s : StateDB) : bytes :=
  match activatedWasms (arbExtraData s) !! moduleHash with
  | Some asmMap =>
      match entries asmMap !! target with
      | Some asm => asm
      | None => db_ActivatedAsm s target moduleHash
      end
  | None => db_ActivatedAsm s target moduleHash
  end.

(** The second loop of [ActivatedAsmMap]: ask the database target by target. *)
Fixpoint collect_from_db (s : StateDB) (moduleHash : Hash) (targets : list WasmTarget)
    (asmMap : gmap string (list byte)) (missingTargets : list WasmTarget)
    : gmap string (list byte) * list WasmTarget :=
  match targets with
  | [] => (asmMap, missingTargets)
  | target :: rest =>
      let asm := db_ActivatedAsm s target moduleHash in
      if (0 <? length asm)%nat
      then collect_from_db s moduleHash rest (<[target := asm]> asmMap) missingTargets
      else collect_from_db s moduleHash rest asmMap (missingTargets ++ [target])
  end.

(** [ActivatedAsmMap]. Indexing the outer map with an absent key gives the
    nil map, as does a key that was stored with a nil map. *)
Definition ActivatedAsmMap (targets : list WasmTarget) (moduleHash : Hash) (s : StateDB)
    : ActivatedWasm * list WasmTarget * option error :=
  match default None (activatedWasms (arbExtraData s) !! moduleHash) with
  | Some asmMap =>
      match List.find (fun target => negb (bool_decide (is_Some (asmMap !! target)))) targets with
      | Some target => (None, targets, Some (ErrAsmMissing moduleHash target))
      | None => (Some asmMap, [], None)
      end
  | None =>
      let '(asmMap, missingTargets) := collect_from_db s moduleHash targets ∅ [] in
      (Some asmMap, missingTargets, None)
  end.

(** A state with one newly activated wasm, hash [1] compiled for "wavm". *)
Definition state_one : StateDB :=
  mkStateDB
    (mkArbitrumExtraData 1%positive 0 0 {[ 1%N := Some {[ "wavm" := [x01] ]} ]})
    [wasmActivation 1%N]
    (fun _ _ => []).

(** A state right after a commit: no newly activated wasm, an empty journal. *)
Definition state_empty : StateDB :=
  mkStateDB (mkArbitrumExtraData 1%positive 0 0 ∅) [] (fun _ _ => []).

End Activation.

(** ** Stylus page counters *)

Module Pages.

Definition uint16_max : Z := 65535.

(** Modelled from the spec: [common.SaturatingUAdd] at [uint16] (the
    arithmetic helpers of package common are not among the sources). "Both
    use saturating arithmetic (never overflow/wrap)": the 16-bit sum is
    taken with Go's wrap-around, and the largest [uint16] replaces it when
    it came out below an operand, that is when it wrapped. *)
Definition SaturatingUAdd (a b : Z) : Z :=
  let sum := (a + b) mod 2 ^ 16 in
  if (sum <? a) || (sum <? b) then uint16_max else sum.

(** Modelled from the spec: [common.MaxInt] of two values, the "high-water
    mark" of the ever counter. *)
Definition MaxInt (a b : Z) : Z := if a <? b then b else a.

Definition GetStylusPages (s : StateDB) : Z * Z :=
  (openWasmPages (arbExtraData s), everWasmPages (arbExtraData s)).

Definition GetStylusPagesOpen (s : StateDB) : Z := openWasmPages (arbExtraData s).

Definition SetStylusPagesOpen (open : Z) (s : StateDB) : StateDB :=
  set_pages open (everWasmPages (arbExtraData s)) s.

(** Returns the previous counts and the state with [new] more pages open. *)
Definition AddStylusPages (new : Z) (s : StateDB) : (Z * Z) * StateDB :=
  let '(open, ever) := GetStylusPages s in
  let s1 := set_pages (SaturatingUAdd open new) (everWasmPages (arbExtraData s)) s in
  let s2 := set_pages (openWasmPages (arbExtraData s1))
              (MaxInt ever (openWasmPages (arbExtraData s1))) s1 in
  ((open, ever), s2).

Definition AddStylusPagesEver (new : Z) (s : StateDB) : StateDB :=
  set_pages (openWasmPages (arbExtraData s))
    (SaturatingUAdd (everWasmPages (arbExtraData s)) new) s.

(** Both counters are [uint16] values. *)
Definition pages_in_range (s : StateDB) : Prop :=
  0 <= openWasmPages (arbExtraData s) <= uint16_max /\
  0 <= everWasmPages (arbExtraData s) <= uint16_max.

End Pages.

(** ** Unexpected balance delta *)

Module Delta.

(** The [big.Int] objects in memory: each location holds an integer. *)
Abbreviation bigInts := (gmap positive Z) (only parsing).

(** [new(big.Int)]: a location not in use so far, holding zero. *)
Definition new_bigInt (h : gmap positive Z) : loc * gmap positive Z :=
  let z := fresh (dom h) in (z, <[z := 0]> h).

(** [z.Set(x)]: stores the value of [x] in [z] and returns [z]; [None] is
    the panic on a pointer that holds no integer. *)
Definition bigInt_Set (z x : loc) (h : gmap positive Z) : option (loc * gmap positive Z) :=
  match h !! x with
  | Some v => Some (z, <[z := v]> h)
  | None => None
  end.

(** The state itself is only read. *)
Definition GetUnexpectedBalanceDelta (s : StateDB) (h : gmap positive Z)
    : option (loc * gmap positive Z) :=
  let '(z, h1) := new_bigInt h in
  bigInt_Set z (unexpectedBalanceDelta (arbExtraData s)) h1.

End Delta.

(** ** Iterating over the storage of an account *)

Module Storage.

(** The number a byte string spells in big-endian order. *)
Fixpoint be_value (acc : N) (b : bytes) : N :=
  match b with
  | [] => acc
  | x :: rest => be_value (acc * 256 + Byte.to_N x)%N rest
  end.

(** Modelled from the spec: [common.BytesToHash] (the types of package
    common are not among the sources). "The payload's content bytes are
    reinterpreted as a fixed-width hash value": the bytes are the low end
    of the 32 bytes of the hash, so the hash is their big-endian number
    within 256 bits. *)
Definition BytesToHash (b : bytes) : Hash := (be_value 0 b mod 2 ^ 256)%N.

(** What [trie.NewIterator] walks through: the leaves as raw key and value,
    or the error of opening the node iterator. *)
Record Trie : Type := mkTrie {
  NodeIterator : error + list (bytes * bytes);
}.

(** The state object of an account: its dirty storage and the outcome of
    opening its storage trie. *)
Record stateObject : Type := mkStateObject {
  dirtyStorage : gmap N N;
  getTrie : error + Trie;
}.

Section ForEach.
(** The callback is a Go closure: it may keep a state [St] of its own. *)
Context {St : Type}.
(** [s.trie.GetKey]: the preimage of a hashed trie key. *)
Variable GetKey : bytes -> bytes.
(** [rlp.Split], of which the content and the error are used. *)
Variable rlp_Split : bytes -> bytes * option error.
Variable cb : Hash -> Hash -> St -> bool * St.

(** The loop [for it.Next()] over the leaves the iterator still has. *)
Fixpoint iterate (so : stateObject) (leaves : list (bytes * bytes)) (st : St)
    : St * option error :=
  match leaves with
  | [] => (st, None)
  | (it_Key, it_Value) :: rest =>
      let key := BytesToHash (GetKey it_Key) in
      match dirtyStorage so !! key with
      | Some value =>
          let '(more, st') := cb key value st in
          if negb more then (st', None) else iterate so rest st'
      | None =>
          if (0 <? length it_Value)%nat then
            match rlp_Split it_Value with
            | (_, Some err) => (st, Some err)
            | (content, None) =>
                let '(more, st') := cb key (BytesToHash content) st in
                if negb more then (st', None) else iterate so rest st'
            end
          else iterate so rest st
      end
  end.

(** [forEachStorage], given what [s.getStateObject(addr)] returned. *)
Definition forEachStorage (so : option stateObject) (st : St) : St * option error :=
  match so with
  | None => (st, None)
  | Some so =>
      match getTrie so with
      | inl err => (st, Some err)
      | inr tr =>
          match NodeIterator tr with
          | inl err => (st, Some err)
          | inr leaves => iterate so leaves st
          end
      end
  end.
End ForEach.

(** A callback that logs each call (key, value, answer) before answering
    as [cb] does; the log shows what was visited and in which order. *)
Definition logging {St : Type} (cb : Hash -> Hash -> St -> bool * St)
    (key value : Hash) (st : St * list (Hash * Hash * bool))
    : bool * (St * list (Hash * Hash * bool)) :=
  let '(more, st') := cb key value (fst st) in
  (more, (st', snd st ++ [(key, value, more)])).

(** The callback that always asks for more. *)
Definition visit_all (key value : Hash) (st : unit) : bool * unit := (true, st).

(** The errors of package rlp that [Split] returns. *)
Definition ErrUnexpectedEOF : error := ErrExternal "unexpected EOF".
Definition ErrCanonSize : error := ErrExternal "rlp: non-canonical size information".
Definition ErrValueTooLarge : error :=
  ErrExternal "rlp: value size exceeds available input length".

(** Modelled from the spec: [readSize] of package rlp (not among the
    sources), the size of a long value: the big-endian number of its first
    [slen] bytes, refused when below 56 or written with a leading zero. *)
Definition readSize (b : bytes) (slen : nat) : N + error :=
  if (length b <? slen)%nat then inr ErrUnexpectedEOF
  else
    let s := be_value 0 (take slen b) in
    if (s <? 56)%N || match b with x :: _ => (Byte.to_N x =? 0)%N | [] => false end
    then inr ErrCanonSize
    else inl s.

(** Modelled from the spec: [readKind] of package rlp (not among the
    sources), the size of the tag and of the content of the first value:
    "storage-trie leaf values are length-prefixed encoded records". A byte
    below 0x80 is its own content; 0x80 to 0xB7 and 0xC0 to 0xF7 head a
    string or a list of up to 55 bytes; 0xB8 to 0xBF and 0xF8 to 0xFF head
    the size of a longer one. A one-byte string that should have been a
    single byte is refused, and so is a content longer than the input. *)
Definition readKind (buf : bytes) : (nat * N) + error :=
  match buf with
  | [] => inr ErrUnexpectedEOF
  | b :: rest =>
      let tag := Byte.to_N b in
      let sized (tagsize : nat) (contentsize : N) : (nat * N) + error :=
        if (N.of_nat (length buf) - N.of_nat tagsize <? contentsize)%N
        then inr ErrValueTooLarge
        else inl (tagsize, contentsize) in
      let long (slen : nat) : (nat * N) + error :=
        match readSize rest slen with
        | inr err => inr err
        | inl contentsize => sized (slen + 1)%nat contentsize
        end in
      if (tag <? 128)%N then sized 0%nat 1%N
      else if (tag <? 184)%N then
        if (tag - 128 =? 1)%N && (1 <? length buf)%nat
           && match rest with x :: _ => (Byte.to_N x <? 128)%N | [] => false end
        then inr ErrCanonSize
        else sized 1%nat (tag - 128)%N
      else if (tag <? 192)%N then long (N.to_nat (tag - 183))
      else if (tag <? 248)%N then sized 1%nat (tag - 192)%N
      else long (N.to_nat (tag - 247))
  end.

(** Modelled from the spec: [rlp.Split] (package rlp is not among the
    sources), of which the content and the error are kept: the content of
    the first value of [b], or the nil content and the error of [readKind]. *)
Definition Split (b : bytes) : bytes * option error :=
  match readKind b with
  | inr err => ([], Some err)
  | inl (tagsize, contentsize) =>
      (take (N.to_nat contentsize) (drop tagsize b), None)
  end.

(** An account with the dirty slot [1 -> 17] whose trie holds the slots
    [1 -> 16] and [2 -> 0x1234]. *)
Definition account_two_slots : stateObject :=
  mkStateObject {[ 1%N := 17%N ]}
    (inr (mkTrie (inr [([x01], [x10]); ([x02], [x82; x12; x34])]))).

End Storage.

(** ** Recently used wasms *)

Module Recent.

(** Modelled from the spec: [lru.BasicLRU] with [NewBasicLRU], [Get], [Add],
    [Keys] and [Capacity] (package common/lru is not among the sources).
    "A fixed-capacity, least-recently-used-eviction set", "sized to a
    caller-supplied capacity": the capacity and the keys, the most recently
    used one first. *)
Record BasicLRU : Type := mkBasicLRU {
  cap : Z;
  items : list N;
}.

Definition NewBasicLRU (capacity : Z) : BasicLRU := mkBasicLRU capacity [].

(** Modelled from the spec: a hit reports the key as present, "in which
    case nothing changes". *)
Definition Get (key : Hash) (c : BasicLRU) : bool * BasicLRU :=
  (bool_decide (key ∈ items c), c).

(** Modelled from the spec: a new key "becomes the most-recently-used entry
    and may evict the least-recently-used entry if capacity is exceeded";
    a key that is present only becomes the most recently used one. *)
Definition Add (key : Hash) (c : BasicLRU) : BasicLRU :=
  if bool_decide (key ∈ items c)
  then mkBasicLRU (cap c) (key :: filter (fun k => k ≠ key) (items c))
  else
    let l := key :: items c in
    mkBasicLRU (cap c) (if cap c <? Z.of_nat (length l) then removelast l else l).



(** The caches in memory, and [RecentWasms]: a struct of one pointer. *)
Record RecentWasms : Type := mkRecentWasms {
  cache : option loc;
}.

Definition NewRecentWasms : RecentWasms := mkRecentWasms None.

(** [Insert] has a value receiver: the assignment [p.cache = &cache] sets
    the pointer in the copy of [p] the method works on, and the method
    returns the flag only. So the model returns the flag and the memory,
    and no new value for [p]. [None] stands for a pointer into nowhere,
    which Go rules out. *)
Definition Insert (p : RecentWasms) (item : Hash) (retain : Z) (h : gmap positive BasicLRU)
    : option (bool * gmap positive BasicLRU) :=
  let '(c, h) :=
    match cache p with
    | None => let c := fresh (dom h) in (c, <[c := NewBasicLRU retain]> h)
    | Some c => (c, h)
    end in
  match h !! c with
  | None => None
  | Some lru =>
      let '(hit, lru) := Get item lru in
      if hit then Some (hit, <[c := lru]> h)
      else Some (false, <[c := Add item lru]> h)
  end.


(** A run of [Insert] calls on the same value [p], with their flags. *)
Fixpoint Inserts (p : RecentWasms) (calls : list (Hash * Z)) (h : gmap positive BasicLRU)
    : option (list bool * gmap positive BasicLRU) :=
  match calls with
  | [] => Some ([], h)
  | (item, retain) :: rest =>
      match Insert p item retain h with
      | None => None
      | Some (hit, h1) =>
          match Inserts p rest h1 with
          | None => None
          | Some (hits, h2) => Some (hit :: hits, h2)
          end
      end
  end.

(** The cache [p] points to, if any. *)
Definition view (p : RecentWasms) (h : gmap positive BasicLRU) : option BasicLRU :=
  match cache p with
  | None => None
  | Some c => h !! c
  end.

(** The capacity of [p], none while it is not initialized. *)
Definition capacity_of (p : RecentWasms) (h : gmap positive BasicLRU) : option Z :=
  cap <$> view p h.

(** The hashes [p] holds. *)
Definition members (p : RecentWasms) (h : gmap positive BasicLRU) : gset N :=
  match view p h with
  | None => ∅
  | Some lru => list_to_set (items lru)
  end.

(** A cache as [NewBasicLRU] and [Add] build it: no key twice, no more
    keys than the capacity. *)
Definition lru_ok (c : BasicLRU) : Prop :=
  NoDup (items c) /\ Z.of_nat (length (items c)) <= cap c.

(** The pointer of [p], if set, leads to such a cache. *)
Definition valid (p : RecentWasms) (h : gmap positive BasicLRU) : Prop :=
  match cache p with
  | None => True
  | Some c => exists lru, h !! c = Some lru /\ lru_ok lru
  end.

(** A memory with one cache of capacity 2 holding the hashes 8 and 7, and
    the value that points to it. *)
Definition heap_one : gmap positive BasicLRU := {[ 1%positive := mkBasicLRU 2 [8%N; 7%N] ]}.
Definition cache_at_one : RecentWasms := mkRecentWasms (Some 1%positive).

End Recent.

(** ** The activation cycle *)

Module Cycle.

(** What [ActivateWasm] takes for granted between two commits: any two
    maps among the newly activated wasms have entries for the same targets. *)
Definition same_targets (m : gmap N (option (gmap string (list byte)))) : Prop :=
  forall h1 h2 b1 b2,
    m !! h1 = Some b1 -> m !! h2 = Some b2 ->
    Activation.targets b1 = Activation.targets b2.

(** What reverting relies on: each newly activated wasm has its entry in
    the journal. *)
Definition journal_covers (s : StateDB) : Prop :=
  forall h, is_Some (activatedWasms (arbExtraData s) !! h) ->
    wasmActivation h ∈ journal s.

(** A state with two newly activated wasms, both compiled for "wavm". *)
Definition state_two : StateDB :=
  mkStateDB
    (mkArbitrumExtraData 1%positive 0 0
       (<[ 2%N := Some {[ "wavm" := [x02] ]} ]> {[ 1%N := Some {[ "wavm" := [x01] ]} ]}))
    [wasmActivation 1%N; wasmActivation 2%N]
    (fun target h => if bool_decide (target = "host") then [x09] else []).

End Cycle.

(** ** Recording the wasms a block uses *)

Module Recording.

(** [UserWasms]: a map from module hash to its asm map; [None] is the nil
    map the state has until [StartRecording]. It is the field [userWasms]
    of [ArbitrumExtraData], carried here beside the state. *)
Abbreviation UserWasms := (option (gmap N (option (gmap string (list byte))))) (only parsing).

(** The error [RecordProgram] builds with [fmt.Errorf]: the missing targets
    and the error it wraps. *)
Inductive recordError : Type :=
  | ErrCantFindActivated (missingTargets : list WasmTarget) (err : option error).

Definition StartRecording (userWasms : UserWasms) : UserWasms := Some ∅.

Definition RecordProgram (targets : list WasmTarget) (moduleHash : Hash)
    (s : StateDB) (userWasms : UserWasms) : UserWasms * option recordError :=
  if (length targets =? 0)%nat then (userWasms, None)
  else
    let '(asmMap, missingTargets, err) :=
      Activation.ActivatedAsmMap targets moduleHash s in
    if bool_decide (err ≠ None) || (0 <? length missingTargets)%nat
    then (userWasms, Some (ErrCantFindActivated missingTargets err))
    else
      match userWasms with
      | Some u => (Some (<[moduleHash := asmMap]> u), None)
      | None => (None, None)
      end.

End Recording.

(** ** Self-destructed accounts *)

Module SelfDestructs.

(** [common.Address], the 160-bit number of its 20 bytes. *)
Abbreviation Address := N (only parsing).

(** Of a state object, the flag [GetSelfDestructs] reads. *)
Record accountObject : Type := mkAccountObject {
  selfDestructed : bool;
}.

(** The body of the loop of [GetSelfDestructs] for one address. *)
Definition visit (stateObjects : gmap N accountObject)
    (selfDestructs : list Address) (addr : Address) : list Address :=
  match stateObjects !! addr with
  | None => selfDestructs
  | Some obj => if selfDestructed obj then selfDestructs ++ [addr] else selfDestructs
  end.

(** [GetSelfDestructs], given the order in which the range walks through
    the keys of [s.journal.dirties]. *)
Definition GetSelfDestructs_in (order : list Address)
    (stateObjects : gmap N accountObject) : list Address :=
  fold_left (visit stateObjects) order [].

(** The orders a range over [dirties] can take: each key once. *)
Definition range_order (dirties : gmap N nat) (order : list Address) : Prop :=
  order ≡ₚ (map_to_list dirties).*1.

(** [GetSelfDestructs] under the range order of [map_to_list]. *)
Definition GetSelfDestructs (dirties : gmap N nat)
    (stateObjects : gmap N accountObject) : list Address :=
  GetSelfDestructs_in (map_to_list dirties).*1 stateObjects.

(** Three dirtied addresses: 1 self-destructed, 2 alive, 3 without object;
    address 4 self-destructed but not dirtied. *)
Definition dirties_three : gmap N nat := <[ 3%N := 1%nat ]> (<[ 2%N := 2%nat ]> {[ 1%N := 1%nat ]}).
Definition objects_three : gmap N accountObject :=
  <[ 4%N := mkAccountObject true ]>
    (<[ 2%N := mkAccountObject false ]> {[ 1%N := mkAccountObject true ]}).

End SelfDestructs.

(** ** What the storage iteration does with one leaf *)

Module Leaves.

(** The pair the callback is handed for a leaf, if any: the dirty value of
    its key, else the decoded value of a leaf that is not empty. *)
Definition entry_of (GetKey : bytes -> bytes) (rlp_Split : bytes -> bytes * option error)
    (so : Storage.stateObject) (leaf : bytes * bytes) : option (Hash * Hash * bool) :=
  let key := Storage.BytesToHash (GetKey (fst leaf)) in
  match Storage.dirtyStorage so !! key with
  | Some value => Some (key, value, true)
  | None =>
      if (0 <? length (snd leaf))%nat
      then Some (key, Storage.BytesToHash (fst (rlp_Split (snd leaf))), true)
      else None
  end.

(** The leaves the iteration has to decode, and decodes without error. *)
Definition decodable (GetKey : bytes -> bytes) (rlp_Split : bytes -> bytes * option error)
    (so : Storage.stateObject) (leaf : bytes * bytes) : Prop :=
  Storage.dirtyStorage so !! Storage.BytesToHash (GetKey (fst leaf)) = None ->
  snd leaf ≠ [] -> snd (rlp_Split (snd leaf)) = None.

(** An account with the dirty slots [1 -> 17] and [9 -> 1] whose trie holds
    the slots [1 -> 16], [2 -> 0x1234] and an empty leaf for slot 3. *)
Definition account_mixed : Storage.stateObject :=
  Storage.mkStateObject (<[ 9%N := 1%N ]> {[ 1%N := 17%N ]})
    (inr (Storage.mkTrie
            (inr [([x01], [x10]); ([x03], []); ([x02], [x82; x12; x34])]))).

(** An account with the dirty slot [1 -> 17] whose trie holds a leaf for
    slot 1, a leaf for slot 2 whose value [81 05] is the byte 5 written as
    a string, which the encoding refuses, and a leaf for slot 4. *)
Definition leaves_broken : list (bytes * bytes) :=
  [([x01], [x10])] ++ ([x02], [x81; x05]) :: [([x04], [x05])].

Definition account_broken : Storage.stateObject :=
  Storage.mkStateObject {[ 1%N := 17%N ]} (inr (Storage.mkTrie (inr leaves_broken))).

End Leaves.

(** * Properties *)

(** ** Stylus prefix *)

Section StylusPrefix.
Import Stylus.

Lemma IsStylusProgram_spec (b : bytes) :
  IsStylusProgram b = true <->
  (4 <= length b)%nat /\ take 3 b = StylusDiscriminant.
Proof.
  unfold IsStylusProgram, bytes_Equal.
  change (length StylusDiscriminant + 1)%nat with 4%nat.
  destruct (Nat.ltb_spec (length b) 4) as [Hlt | Hge].
  - split; [done | intros [? _]; lia].
  - rewrite bool_decide_eq_true. split; [intros ?; split; [lia | done] | tauto].
Qed.

Lemma IsStylusProgram_prefixed (d : byte) (p : bytes) :
  IsStylusProgram (NewStylusPrefix d ++ p) = true.
Proof. apply IsStylusProgram_spec. split; [simpl; lia | reflexivity]. Qed.

(** C4, as amended: [IsStylusProgram b] holds exactly when [b] has at least
    four bytes (the three of the discriminant and the dictionary byte) and
    its first three bytes are [0xEF 0xF0 0x00]; every [b] of three bytes or
    fewer is rejected whatever it holds. *)
Theorem IsStylusProgram_iff (b : bytes) :
  (IsStylusProgram b = true <->
     (4 <= length b)%nat /\ take 3 b = [xef; xf0; x00]) /\
  ((length b <= 3)%nat -> IsStylusProgram b = false).
Proof.
  split; [apply IsStylusProgram_spec |].
  intros Hlen. destruct (IsStylusProgram b) eqn:E; [| done].
  apply IsStylusProgram_spec in E as [? _]. lia.
Qed.

Lemma IsStylusProgram_iff_witness :
  IsStylusProgram [xef; xf0] = false.
Proof. apply (IsStylusProgram_iff [xef; xf0]). simpl. lia. Defined.

(** C4 as stated fails: the four bytes [EF F0 00 00] are shorter than five
    bytes and are accepted. *)
Lemma IsStylusProgram_four_bytes :
  let b := [xef; xf0; x00; x00] in
  length b = 4%nat /\
  ~ (IsStylusProgram b = true <->
       (5 <= length b)%nat /\ take 3 b = [xef; xf0; x00]).
Proof.
  simpl. split; [reflexivity |].
  intros [H _]. assert (IsStylusProgram [xef; xf0; x00; x00] = true) as E by reflexivity.
  apply H in E as [? _]. lia.
Qed.

(** C5: stripping a prefix built for dictionary [d] and followed by the
    payload [p] succeeds with body [p] and dictionary [d]. *)
Theorem StripStylusPrefix_NewStylusPrefix (d : byte) (p : bytes) :
  StripStylusPrefix (NewStylusPrefix d ++ p) = (p, d, None).
Proof.
  unfold StripStylusPrefix. rewrite IsStylusProgram_prefixed. reflexivity.
Qed.

End StylusPrefix.

(** ** Newly activated wasms *)

Section ActivatedWasms.
Import Activation.

Lemma has_key_dom (m : option (gmap string (list byte))) (t : string) :
  has_key m t = true <-> t ∈ targets m.
Proof. unfold has_key, targets. rewrite bool_decide_eq_true, elem_of_dom. done. Qed.

Lemma range_keys_dom (m : option (gmap string (list byte))) (t : string) :
  t ∈ range_keys m <-> t ∈ targets m.
Proof.
  unfold range_keys, targets. rewrite elem_of_dom, list_elem_of_fmap. split.
  - intros [[k v] [-> Hin]]. apply elem_of_map_to_list in Hin. by exists v.
  - intros [v Hv]. exists (t, v). split; [done | by apply elem_of_map_to_list].
Qed.

Lemma missing_target_subseteq (a p : option (gmap string (list byte))) :
  existsb (fun target => negb (has_key a target)) (range_keys p) = false <->
  targets p ⊆ targets a.
Proof.
  split.
  - intros Hex t Ht. apply has_key_dom.
    destruct (has_key a t) eqn:E; [done |].
    assert (existsb (fun target => negb (has_key a target)) (range_keys p) = true) as Habs.
    { apply existsb_exists. exists t. split.
      - apply list_elem_of_In, range_keys_dom, Ht.
      - by rewrite E. }
    congruence.
  - intros Hsub.
    destruct (existsb _ _) eqn:E; [| done].
    apply existsb_exists in E as (t & Hin & Hneg).
    apply list_elem_of_In, range_keys_dom, Hsub, has_key_dom in Hin.
    rewrite Hin in Hneg. discriminate.
Qed.

(** The check of [ActivateWasm] passes exactly when both maps have entries
    for the same targets. *)
Lemma inconsistent_false_iff (a p : option (gmap string (list byte))) :
  inconsistent a p = false <-> targets a = targets p.
Proof.
  unfold inconsistent, len.
  destruct (Nat.eqb_spec (size (entries a)) (size (entries p))) as [Hsz | Hsz]; simpl.
  - rewrite missing_target_subseteq. split.
    + intros Hsub. symmetry.
      apply set_subseteq_size_eq; [done |].
      unfold targets. rewrite !size_dom. lia.
    + intros ->. done.
  - split; [done |]. intros Heq. exfalso. apply Hsz.
    assert (size (targets a) = size (targets p)) as Hs by (by rewrite Heq).
    unfold targets in Hs. by rewrite !size_dom in Hs.
Qed.

Lemma inconsistent_true_iff (a p : option (gmap string (list byte))) :
  inconsistent a p = true <-> targets a ≠ targets p.
Proof.
  rewrite <- inconsistent_false_iff. destruct (inconsistent a p); split; congruence.
Qed.

Lemma range_head_first (m : gmap N (option (gmap string (list byte)))) :
  range_first m (range_head m).
Proof.
  unfold range_head, range_first.
  destruct (map_to_list m) as [| [h v] l] eqn:E; simpl.
  - by apply map_to_list_empty_iff.
  - exists h. apply elem_of_map_to_list. rewrite E. left.
Qed.

Lemma range_first_nonempty (m : gmap N (option (gmap string (list byte))))
    (first : option (option (gmap string (list byte)))) :
  m ≠ ∅ -> range_first m first ->
  exists h previouslyActivated,
    first = Some previouslyActivated /\ m !! h = Some previouslyActivated.
Proof.
  intros Hne Hfirst. destruct first as [prev |]; simpl in Hfirst.
  - destruct Hfirst as [h Hh]. by exists h, prev.
  - contradiction.
Qed.

(** C1: when the map of newly activated wasms is not empty, all its maps
    have entries for the target set [T] and the map passed in has entries
    for another target set, [ActivateWasm] returns the error and the state
    it leaves (the activated wasms and the journal with it) is the state it
    was called on, whichever entry its range picks for the comparison. *)
Theorem ActivateWasm_inconsistent_targets (s : StateDB) (moduleHash : N)
    (asmMap : option (gmap string (list byte)))
    (first : option (option (gmap string (list byte)))) (T : gset string) :
  activatedWasms (arbExtraData s) ≠ ∅ ->
  (forall h prev, activatedWasms (arbExtraData s) !! h = Some prev -> targets prev = T) ->
  targets asmMap ≠ T ->
  range_first (activatedWasms (arbExtraData s)) first ->
  ActivateWasm_from first moduleHash asmMap s = (s, Some ErrInconsistentTargets).
Proof.
  intros Hne Hall Hdiff Hfirst.
  destruct (range_first_nonempty _ _ Hne Hfirst) as (h & prev & -> & Hh).
  unfold ActivateWasm_from.
  assert (inconsistent asmMap prev = true) as ->; [| done].
  apply inconsistent_true_iff. by rewrite (Hall h prev Hh).
Qed.

Lemma ActivateWasm_inconsistent_targets_witness :
  ActivateWasm_from (Some (Some {[ "wavm" := [x01] ]})) 2%N (Some {[ "arm64" := [x02] ]}) state_one
  = (state_one, Some ErrInconsistentTargets).
Proof.
  apply (ActivateWasm_inconsistent_targets state_one 2%N _ _ {[ "wavm" ]}).
  - intros H. apply (f_equal (fun m => m !! 1%N)) in H. vm_compute in H. discriminate.
  - intros h prev Hh. unfold state_one in Hh. cbn [activatedWasms arbExtraData] in Hh.
    apply lookup_singleton_Some in Hh as [_ <-]. vm_compute. reflexivity.
  - vm_compute. discriminate.
  - exists 1%N. vm_compute. reflexivity.
Defined.

(** C2, as amended: a call of [ActivateWasm] for a hash that is already
    among the newly activated wasms never changes the state (no insertion,
    no overwrite, no journal entry); it returns nil when the map passed in
    has the targets of the entry compared against, and the error of the
    consistency check otherwise. *)
Theorem ActivateWasm_present_unchanged (s : StateDB) (moduleHash : N)
    (asmMap : option (gmap string (list byte)))
    (first : option (option (gmap string (list byte)))) :
  is_Some (activatedWasms (arbExtraData s) !! moduleHash) ->
  range_first (activatedWasms (arbExtraData s)) first ->
  exists previouslyActivated,
    first = Some previouslyActivated /\
    ActivateWasm_from first moduleHash asmMap s =
      (s, if decide (targets asmMap = targets previouslyActivated)
          then None else Some ErrInconsistentTargets).
Proof.
  intros [old Hold] Hfirst.
  assert (activatedWasms (arbExtraData s) ≠ ∅) as Hne.
  { intros E. rewrite E, lookup_empty in Hold. discriminate. }
  destruct (range_first_nonempty _ _ Hne Hfirst) as (h & prev & -> & Hh).
  exists prev. split; [done |].
  unfold ActivateWasm_from, insert_if_absent. rewrite Hold.
  destruct (decide (targets asmMap = targets prev)) as [Heq | Hneq].
  - apply inconsistent_false_iff in Heq. by rewrite Heq.
  - apply inconsistent_true_iff in Hneq. by rewrite Hneq.
Qed.

Lemma ActivateWasm_present_unchanged_witness :
  exists previouslyActivated,
    range_head (activatedWasms (arbExtraData state_one)) = Some previouslyActivated /\
    ActivateWasm 1%N (Some {[ "wavm" := [x07] ]}) state_one =
      (state_one, if decide (targets (Some {[ "wavm" := [x07] ]}) = targets previouslyActivated)
                  then None else Some ErrInconsistentTargets).
Proof.
  apply (ActivateWasm_present_unchanged state_one 1%N (Some {[ "wavm" := [x07] ]})).
  - vm_compute. eexists. reflexivity.
  - apply range_head_first.
Defined.

(** C2 as stated fails: the hash [1] is present, the map passed in has
    another target, and the call returns the error instead of nil, under
    every order of the range. *)
Lemma ActivateWasm_present_not_nil :
  is_Some (activatedWasms (arbExtraData state_one) !! 1%N) /\
  forall first, range_first (activatedWasms (arbExtraData state_one)) first ->
    ActivateWasm_from first 1%N (Some {[ "arm64" := [x02] ]}) state_one
    = (state_one, Some ErrInconsistentTargets).
Proof.
  split.
  - vm_compute. eexists. reflexivity.
  - intros first Hfirst. destruct first as [prev |]; simpl in Hfirst.
    + destruct Hfirst as [h Hh]. unfold state_one in Hh.
      cbn [activatedWasms arbExtraData] in Hh.
      apply lookup_singleton_Some in Hh as [_ <-].
      vm_compute. reflexivity.
    + apply (f_equal (fun m => m !! 1%N)) in Hfirst. vm_compute in Hfirst. discriminate.
Qed.

(** With a non-nil map stored for the hash and a requested target it has
    no entry for, [ActivatedAsmMap] returns the nil map, all requested
    targets and an error naming the first such target. *)
Lemma ActivatedAsmMap_incomplete (s : StateDB) (moduleHash : N)
    (asmMap : gmap string (list byte)) (requested : list string) :
  activatedWasms (arbExtraData s) !! moduleHash = Some (Some asmMap) ->
  (exists t, t ∈ requested /\ asmMap !! t = None) ->
  exists t, t ∈ requested /\ asmMap !! t = None /\
    ActivatedAsmMap requested moduleHash s
    = (None, requested, Some (ErrAsmMissing moduleHash t)).
Proof.
  intros Hin (t & Ht & Hnone). unfold ActivatedAsmMap. rewrite Hin. simpl.
  destruct (List.find _ requested) as [t' |] eqn:E.
  - apply find_some in E as [Hin' Hneg]. exists t'.
    apply negb_true_iff, bool_decide_eq_false in Hneg.
    split; [by apply list_elem_of_In |]. split; [| done].
    by apply eq_None_not_Some.
  - exfalso. apply list_elem_of_In in Ht.
    pose proof (find_none _ _ E t Ht) as Hneg.
    apply negb_false_iff, bool_decide_eq_true in Hneg.
    rewrite Hnone in Hneg. by destruct Hneg.
Qed.

(** With a non-nil map stored for the hash that has all requested targets,
    [ActivatedAsmMap] returns that map, no missing target and no error. *)
Lemma ActivatedAsmMap_complete (s : StateDB) (moduleHash : N)
    (asmMap : gmap string (list byte)) (requested : list string) :
  activatedWasms (arbExtraData s) !! moduleHash = Some (Some asmMap) ->
  (forall t, t ∈ requested -> is_Some (asmMap !! t)) ->
  ActivatedAsmMap requested moduleHash s = (Some asmMap, [], None).
Proof.
  intros Hin Hall. unfold ActivatedAsmMap. rewrite Hin. simpl.
  destruct (List.find _ requested) as [t' |] eqn:E; [| done].
  apply find_some in E as [Hin' Hneg].
  apply negb_true_iff, bool_decide_eq_false in Hneg.
  exfalso. apply Hneg, Hall. by apply list_elem_of_In.
Qed.

(** Without a map stored for the hash, or with the nil map stored for it,
    [ActivatedAsmMap] asks the database and returns no error. *)
Lemma ActivatedAsmMap_from_db (s : StateDB) (moduleHash : N) (requested : list string) :
  default None (activatedWasms (arbExtraData s) !! moduleHash) = None ->
  ActivatedAsmMap requested moduleHash s
  = (Some (collect_from_db s moduleHash requested ∅ []).1,
     (collect_from_db s moduleHash requested ∅ []).2, None).
Proof.
  intros Hnil. unfold ActivatedAsmMap. rewrite Hnil.
  by destruct (collect_from_db s moduleHash requested ∅ []).
Qed.

(** A successful [ActivateWasm] for a hash that was absent stores the map. *)
Lemma ActivateWasm_stores (s s' : StateDB) (moduleHash : N)
    (asmMap : option (gmap string (list byte)))
    (first : option (option (gmap string (list byte)))) :
  activatedWasms (arbExtraData s) !! moduleHash = None ->
  ActivateWasm_from first moduleHash asmMap s = (s', None) ->
  activatedWasms (arbExtraData s') !! moduleHash = Some asmMap /\
  journal s' = journal s ++ [wasmActivation moduleHash].
Proof.
  intros Habs. unfold ActivateWasm_from, insert_if_absent. rewrite Habs.
  destruct first as [prev |]; [destruct (inconsistent asmMap prev) |];
    intros [= <-]; simpl; by rewrite lookup_insert_eq.
Qed.

(** C3: when a (non-nil) map of newly activated wasms is stored for the
    hash and one of the requested targets has no entry in it,
    [ActivatedAsmMap] returns the nil map, the whole list of requested
    targets as missing and an error. In particular, once [H] was activated
    with the map [{A: a1, B: b1}], asking for [[A, B]] returns that map, no
    missing target and no error, and asking for [[A, C]] returns the nil
    map, [[A, C]] and an error. *)
Theorem ActivatedAsmMap_in_flight :
  (forall (s : StateDB) (moduleHash : N) (asmMap : gmap string (list byte))
          (requested : list string),
     activatedWasms (arbExtraData s) !! moduleHash = Some (Some asmMap) ->
     (exists t, t ∈ requested /\ asmMap !! t = None) ->
     exists err, ActivatedAsmMap requested moduleHash s = (None, requested, Some err)) /\
  (forall (s s' : StateDB) (first : option (option (gmap string (list byte))))
          (H : N) (A B C : string) (a1 b1 : list byte),
     C ≠ A -> C ≠ B ->
     activatedWasms (arbExtraData s) !! H = None ->
     ActivateWasm_from first H (Some (<[A := a1]> {[B := b1]})) s = (s', None) ->
     ActivatedAsmMap [A; B] H s' = (Some (<[A := a1]> {[B := b1]}), [], None) /\
     ActivatedAsmMap [A; C] H s' = (None, [A; C], Some (ErrAsmMissing H C))).
Proof.
  split.
  - intros s moduleHash asmMap requested Hin Hmiss.
    destruct (ActivatedAsmMap_incomplete s moduleHash asmMap requested Hin Hmiss)
      as (t & _ & _ & ->). by eexists.
  - intros s s' first H A B C a1 b1 HCA HCB Habs Hact.
    apply ActivateWasm_stores in Hact as [Hin _]; [| done]. split.
    + apply ActivatedAsmMap_complete; [done |].
      intros t Ht. apply elem_of_cons in Ht as [-> | Ht].
      * rewrite lookup_insert_eq. by eexists.
      * apply list_elem_of_singleton in Ht as ->.
        destruct (decide (A = B)) as [-> | Hne].
        -- rewrite lookup_insert_eq. by eexists.
        -- rewrite lookup_insert_ne, lookup_singleton_eq by done. by eexists.
    + unfold ActivatedAsmMap. rewrite Hin. simpl.
      rewrite lookup_insert_eq. rewrite bool_decide_eq_true_2 by (by eexists). simpl.
      rewrite lookup_insert_ne, lookup_singleton_ne by done.
      rewrite bool_decide_eq_false_2 by (by intros [? ?]). done.
Qed.

Lemma ActivatedAsmMap_in_flight_witness :
  (exists err, ActivatedAsmMap ["wavm"; "arm64"] 1%N state_one
             = (None, ["wavm"; "arm64"], Some err)) /\
  let bundle := Some (<[ "wavm" := [x01] ]> {[ "arm64" := [x02] ]}) in
  let s' := fst (ActivateWasm 7%N bundle state_empty) in
  ActivatedAsmMap ["wavm"; "arm64"] 7%N s' = (bundle, [], None) /\
  ActivatedAsmMap ["wavm"; "host"] 7%N s'
  = (None, ["wavm"; "host"], Some (ErrAsmMissing 7%N "host")).
Proof.
  split.
  - apply (proj1 ActivatedAsmMap_in_flight state_one 1%N {[ "wavm" := [x01] ]}).
    + reflexivity.
    + exists "arm64". split; [set_solver | reflexivity].
  - apply (proj2 ActivatedAsmMap_in_flight state_empty _
             (range_head (activatedWasms (arbExtraData state_empty))) 7%N
             "wavm" "arm64" "host" [x01] [x02]).
    + discriminate.
    + discriminate.
    + reflexivity.
    + reflexivity.
Defined.

End ActivatedWasms.

(** ** Stylus page counters *)

Section StylusPages.
Import Pages.

Lemma SaturatingUAdd_min (a b : Z) :
  0 <= a <= uint16_max -> 0 <= b <= uint16_max ->
  SaturatingUAdd a b = Z.min (a + b) uint16_max.
Proof.
  unfold SaturatingUAdd, uint16_max. intros Ha Hb.
  destruct (Z_lt_le_dec (a + b) (2 ^ 16)) as [Hfit | Hwrap].
  - rewrite Z.mod_small by lia.
    destruct (Z.ltb_spec (a + b) a), (Z.ltb_spec (a + b) b); simpl; lia.
  - assert ((a + b) mod 2 ^ 16 = a + b - 2 ^ 16) as ->.
    { symmetry. apply (Z.mod_unique_pos _ _ 1); lia. }
    destruct (Z.ltb_spec (a + b - 2 ^ 16) a); simpl; lia.
Qed.

Lemma MaxInt_max (a b : Z) : MaxInt a b = Z.max a b.
Proof. unfold MaxInt. destruct (Z.ltb_spec a b); lia. Qed.

(** C8: on counters that are both zero, adding 3 pages and then 5 leaves
    open = 8 and ever = 8. From any counters in the [uint16] range,
    [AddStylusPages new] returns the counts of before the call, sets the
    open counter to the sum cut off at 65535 (it never wraps), and the ever
    counter to the larger of its old value and the new open counter. *)
Theorem AddStylusPages_saturates :
  (forall s : StateDB,
     GetStylusPages s = (0, 0) ->
     GetStylusPages (snd (AddStylusPages 5 (snd (AddStylusPages 3 s)))) = (8, 8)) /\
  (forall (s : StateDB) (new : Z),
     pages_in_range s -> 0 <= new <= uint16_max ->
     let open := openWasmPages (arbExtraData s) in
     let ever := everWasmPages (arbExtraData s) in
     let s' := snd (AddStylusPages new s) in
     fst (AddStylusPages new s) = (open, ever) /\
     openWasmPages (arbExtraData s') = Z.min (open + new) 65535 /\
     everWasmPages (arbExtraData s') = Z.max ever (openWasmPages (arbExtraData s')) /\
     pages_in_range s' /\
     activatedWasms (arbExtraData s') = activatedWasms (arbExtraData s) /\
     journal s' = journal s).
Proof.
  split.
  - intros [[d o e m] j f]. unfold GetStylusPages. simpl. intros [= -> ->]. reflexivity.
  - intros [[d o e m] j f] new [Ho He] Hnew. simpl in *.
    rewrite MaxInt_max, SaturatingUAdd_min by done.
    unfold pages_in_range, uint16_max in *. simpl. repeat split; lia.
Qed.

Lemma AddStylusPages_saturates_witness :
  GetStylusPages (snd (AddStylusPages 5 (snd (AddStylusPages 3 Activation.state_empty)))) = (8, 8) /\
  let s := snd (AddStylusPages 65530 Activation.state_empty) in
  fst (AddStylusPages 65530 s) = (65530, 65530) /\
  openWasmPages (arbExtraData (snd (AddStylusPages 65530 s))) = 65535.
Proof.
  split.
  - apply (proj1 AddStylusPages_saturates Activation.state_empty). reflexivity.
  - intros s.
    destruct (proj2 AddStylusPages_saturates s 65530) as (Hret & Hopen & _).
    + unfold pages_in_range, uint16_max. vm_compute. repeat split; discriminate.
    + unfold uint16_max. lia.
    + split; [exact Hret | exact Hopen].
Defined.

End StylusPages.

(** ** Unexpected balance delta *)

Section BalanceDelta.
Import Delta.

Lemma GetUnexpectedBalanceDelta_fresh (s : StateDB) (h : gmap positive Z) (v : Z) :
  h !! unexpectedBalanceDelta (arbExtraData s) = Some v ->
  let r := fresh (dom h) in
  GetUnexpectedBalanceDelta s h = Some (r, <[r := v]> (<[r := 0]> h)) /\
  h !! r = None /\ r ≠ unexpectedBalanceDelta (arbExtraData s).
Proof.
  intros Hv r.
  assert (h !! r = None) as Hfresh.
  { apply not_elem_of_dom. apply is_fresh. }
  assert (r ≠ unexpectedBalanceDelta (arbExtraData s)) as Hne by congruence.
  split; [| done].
  unfold GetUnexpectedBalanceDelta, new_bigInt, bigInt_Set. fold r.
  by rewrite lookup_insert_ne, Hv by done.
Qed.

(** C10: where the stored delta holds [v], [GetUnexpectedBalanceDelta]
    returns a location that was not in use before and differs from the
    stored one, holding [v]; whatever is written to the returned integer
    afterwards, the stored delta still holds [v]; and a second call on the
    same state returns again an integer holding [v]. *)
Theorem GetUnexpectedBalanceDelta_copy (s : StateDB) (h : gmap positive Z) (v : Z) :
  h !! unexpectedBalanceDelta (arbExtraData s) = Some v ->
  exists r h',
    GetUnexpectedBalanceDelta s h = Some (r, h') /\
    h !! r = None /\
    r ≠ unexpectedBalanceDelta (arbExtraData s) /\
    h' !! r = Some v /\
    (forall z, <[r := z]> h' !! unexpectedBalanceDelta (arbExtraData s) = Some v) /\
    exists r2 h'',
      GetUnexpectedBalanceDelta s h' = Some (r2, h'') /\
      r2 ≠ r /\ h'' !! r2 = Some v /\ h'' !! r = Some v.
Proof.
  intros Hv.
  destruct (GetUnexpectedBalanceDelta_fresh s h v Hv) as (Hget & Hfresh & Hne).
  set (r := fresh (dom h)) in *.
  set (h' := <[r := v]> (<[r := 0]> h)) in *.
  assert (h' !! unexpectedBalanceDelta (arbExtraData s) = Some v) as Hv'.
  { unfold h'. by rewrite !lookup_insert_ne. }
  exists r, h'. repeat split; try done.
  - unfold h'. by rewrite lookup_insert_eq.
  - intros z. by rewrite lookup_insert_ne.
  - destruct (GetUnexpectedBalanceDelta_fresh s h' v Hv') as (Hget2 & Hfresh2 & Hne2).
    set (r2 := fresh (dom h')) in *.
    assert (r2 ≠ r) as Hrr.
    { intros E. rewrite E in Hfresh2. unfold h' in Hfresh2.
      rewrite lookup_insert_eq in Hfresh2. discriminate. }
    eexists r2, _. split; [exact Hget2 |]. split; [done |].
    split; [by rewrite lookup_insert_eq |].
    rewrite !lookup_insert_ne by done. unfold h'. by rewrite lookup_insert_eq.
Qed.

Lemma GetUnexpectedBalanceDelta_copy_witness :
  exists r h',
    GetUnexpectedBalanceDelta Activation.state_empty {[ 1%positive := 42 ]} = Some (r, h') /\
    ({[ 1%positive := 42 ]} : gmap positive Z) !! r = None /\
    r ≠ 1%positive /\
    h' !! r = Some 42 /\
    (forall z, <[r := z]> h' !! 1%positive = Some 42) /\
    exists r2 h'',
      GetUnexpectedBalanceDelta Activation.state_empty h' = Some (r2, h'') /\
      r2 ≠ r /\ h'' !! r2 = Some 42 /\ h'' !! r = Some 42.
Proof.
  apply (GetUnexpectedBalanceDelta_copy Activation.state_empty {[ 1%positive := 42 ]} 42).
  reflexivity.
Defined.

End BalanceDelta.

(** ** Iterating over the storage of an account *)

Section StorageIteration.
Import Storage.

Section Logged.
Context {St : Type}.
Variable GetKey : list byte -> list byte.
Variable rlp_Split : list byte -> list byte * option error.
Variable cb : N -> N -> St -> bool * St.

(** Every call is logged behind what was logged before; a call that was
    answered with false is the last one, and the iteration then returns
    no error. *)
Lemma iterate_logging_stops (so : stateObject) (leaves : list (list byte * list byte)) :
  forall (st0 st : St) (log0 log : list (N * N * bool)) (err : option error),
    iterate GetKey rlp_Split (logging cb) so leaves (st0, log0) = ((st, log), err) ->
    exists ext, log = log0 ++ ext /\
      forall pre k v post, ext = pre ++ (k, v, false) :: post ->
        post = [] /\ err = None.
Proof.
  assert (forall (e : N * N * bool) pre k v post,
            [e] = pre ++ (k, v, false) :: post -> post = []) as Hone.
  { intros e [| ? [| ? ?]] k v post E; simpl in E; by inversion E. }
  induction leaves as [| [it_Key it_Value] rest IH]; intros st0 st log0 log err; simpl.
  - intros [= <- <- <-]. exists []. split; [by rewrite app_nil_r |].
    intros [| ? ?] ? ? ? E; discriminate.
  - set (key := BytesToHash (GetKey it_Key)).
    assert (forall value,
      (let '(more, st') := logging cb key value (st0, log0) in
       if negb more then (st', None)
       else iterate GetKey rlp_Split (logging cb) so rest st') = ((st, log), err) ->
      exists ext, log = log0 ++ ext /\
        forall pre k v post, ext = pre ++ (k, v, false) :: post ->
          post = [] /\ err = None) as Hvisit.
    { intros value. unfold logging. simpl.
      destruct (cb key value st0) as [more st'] eqn:Ecb. destruct more; simpl.
      - intros Hrest. apply IH in Hrest as (ext & -> & Hext).
        exists ((key, value, true) :: ext). split; [by rewrite <- app_assoc |].
        intros [| e pre] k v post E; simpl in E; inversion E; subst.
        by eapply Hext.
      - intros [= <- <- <-]. exists [(key, value, false)]. split; [done |].
        intros pre k v post E. split; [by eapply Hone | done]. }
    destruct (dirtyStorage so !! key) as [value |]; [apply Hvisit |].
    destruct (0 <? length it_Value)%nat; [| apply IH].
    destruct (rlp_Split it_Value) as [content [e |]]; [| apply Hvisit].
    intros [= <- <- <-]. exists []. split; [by rewrite app_nil_r |].
    intros [| ? ?] ? ? ? E; discriminate.
Qed.
End Logged.

(** C7, as amended: for an account whose dirty storage is [{k1: v1}] and
    whose trie holds leaves for [k1] (any stored value) and for [k2] (a
    value that decodes to [v2]), and where [s.trie.GetKey] returns for the
    two leaves the bytes of [k1] and of [k2] (the preimages of the hashed
    keys are known), [forEachStorage] calls the callback on exactly
    [(k1, v1)] and [(k2, v2)], once each, in the order of the trie. And for
    any callback and account: a call answered with false is the last call
    made, and the iteration then ends without an error. *)
Theorem forEachStorage_dirty_wins_and_stops :
  (forall (GetKey : list byte -> list byte)
          (rlp_Split : list byte -> list byte * option error)
          (so : stateObject) (tr : Trie) (leaves : list (list byte * list byte))
          (hk1 hk2 raw1 raw2 content : list byte) (k1 k2 v1 v2 : N),
     k1 ≠ k2 ->
     BytesToHash (GetKey hk1) = k1 ->
     BytesToHash (GetKey hk2) = k2 ->
     dirtyStorage so = {[ k1 := v1 ]} ->
     getTrie so = inr tr ->
     NodeIterator tr = inr leaves ->
     leaves ≡ₚ [(hk1, raw1); (hk2, raw2)] ->
     raw2 ≠ [] ->
     rlp_Split raw2 = (content, None) ->
     BytesToHash content = v2 ->
     exists log,
       forEachStorage GetKey rlp_Split (logging visit_all) (Some so) (tt, [])
       = ((tt, log), None) /\
       log ≡ₚ [(k1, v1, true); (k2, v2, true)]) /\
  (forall (St : Type) (GetKey : list byte -> list byte)
          (rlp_Split : list byte -> list byte * option error)
          (cb : N -> N -> St -> bool * St) (so : option stateObject)
          (st0 st : St) (log : list (N * N * bool)) (err : option error),
     forEachStorage GetKey rlp_Split (logging cb) so (st0, []) = ((st, log), err) ->
     forall pre k v post, log = pre ++ (k, v, false) :: post ->
       post = [] /\ err = None).
Proof.
  split.
  - intros GetKey rlp_Split so tr leaves hk1 hk2 raw1 raw2 content k1 k2 v1 v2
      Hne Hk1 Hk2 Hdirty Htrie Hit Hperm Hraw Hsplit Hv2.
    assert ((0 <? length raw2)%nat = true) as Hlen.
    { apply Nat.ltb_lt. destruct raw2; [done | simpl; lia]. }
    unfold forEachStorage. rewrite Htrie, Hit.
    symmetry in Hperm. apply Permutation_length_2_inv in Hperm as [-> | ->]; simpl;
      rewrite Hk1, Hk2, Hdirty, lookup_singleton_eq, lookup_singleton_ne by done;
      rewrite Hlen, Hsplit, Hv2; simpl; eexists; (split; [reflexivity |]).
    + reflexivity.
    + apply Permutation_swap.
  - intros St GetKey rlp_Split cb so st0 st log err Hrun pre k v post Hlog.
    destruct so as [so |]; simpl in Hrun.
    + destruct (getTrie so) as [e | tr].
      { injection Hrun as <- <- <-. by destruct pre. }
      destruct (NodeIterator tr) as [e | leaves].
      { injection Hrun as <- <- <-. by destruct pre. }
      apply iterate_logging_stops in Hrun as (ext & -> & Hext).
      by eapply Hext.
    + injection Hrun as <- <- <-. by destruct pre.
Qed.

Lemma forEachStorage_dirty_wins_and_stops_witness :
  (exists log,
     forEachStorage (fun b => b) Split (logging visit_all)
       (Some account_two_slots) (tt, []) = ((tt, log), None) /\
     log ≡ₚ [(1%N, 17%N, true); (2%N, 4660%N, true)]) /\
  (forall pre k v post,
     [(1%N, 17%N, false)] = pre ++ (k, v, false) :: post -> post = [] /\ @None error = None).
Proof.
  split.
  - apply (proj1 forEachStorage_dirty_wins_and_stops (fun b => b) Split
             account_two_slots (mkTrie (inr [([x01], [x10]); ([x02], [x82; x12; x34])]))
             [([x01], [x10]); ([x02], [x82; x12; x34])]
             [x01] [x02] [x10] [x82; x12; x34] [x12; x34]);
      try reflexivity; discriminate.
  - apply (proj2 forEachStorage_dirty_wins_and_stops unit (fun b => b) Split
             (fun _ _ st => (false, st)) (Some account_two_slots) tt tt).
    reflexivity.
Defined.

(** C7 as stated fails: where no preimage is known, [s.trie.GetKey]
    returns no bytes and every leaf is taken for slot 0. The account with
    the dirty slot [1 -> 17] and the stored slots [1 -> 16], [2 -> 0x1234]
    is then visited as [(0, 16)] and [(0, 0x1234)]: the dirty value of slot
    1 is not handed over, and the pairs are not [(1, 17)], [(2, 0x1234)]. *)
Lemma forEachStorage_without_preimages :
  forEachStorage (fun _ => []) Split (logging visit_all) (Some account_two_slots) (tt, [])
  = ((tt, [(0%N, 16%N, true); (0%N, 4660%N, true)]), None) /\
  ~ ([(0%N, 16%N, true); (0%N, 4660%N, true)]
     ≡ₚ [(1%N, 17%N, true); (2%N, 4660%N, true)]).
Proof.
  split; [reflexivity |].
  intros Hperm.
  assert ((0%N, 16%N, true) ∈ [(1%N, 17%N, true); (2%N, 4660%N, true)]) as Hin.
  { rewrite <- Hperm. left. }
  apply elem_of_cons in Hin as [Heq | Hin]; [discriminate |].
  apply list_elem_of_singleton in Hin. discriminate.
Qed.

End StorageIteration.

(** ** Recently used wasms *)

Section RecentlyUsed.
Import Recent.

Lemma Insert_uninitialized (h : gmap positive BasicLRU) (item : N) (retain : Z) :
  Insert NewRecentWasms item retain h
  = Some (false, <[fresh (dom h) := Add item (NewBasicLRU retain)]> h).
Proof.
  unfold Insert, Get. simpl. rewrite lookup_insert_eq. simpl.
  by rewrite insert_insert_eq.
Qed.





(** Adding a key that is not present keeps the cache within its capacity
    and free of doubles; with room for one key at least, the key is in. *)
Lemma Add_absent_ok (c : BasicLRU) (k : N) :
  lru_ok c -> k ∉ items c ->
  lru_ok (Add k c) /\ cap (Add k c) = cap c /\ (0 < cap c -> k ∈ items (Add k c)).
Proof.
  intros [Hnd Hlen] Hk. unfold Add, lru_ok. rewrite bool_decide_eq_false_2 by done.
  assert (NoDup (k :: items c)) as Hnd' by (by apply NoDup_cons).
  destruct (Z.ltb_spec (cap c) (Z.of_nat (length (k :: items c)))) as [Hfull | Hroom].
  - rewrite removelast_firstn_len. cbn [items cap].
    change (length (k :: items c)) with (S (length (items c))) in *.
    cbn [Nat.pred]. split; [split |]; [| | split; [done |]].
    + eapply sublist_NoDup; [exact Hnd' | apply sublist_take].
    + rewrite length_take. simpl. lia.
    + intros Hpos. destruct (items c) as [| x r]; simpl in *; [lia | left].
  - cbn [items cap]. repeat split; [done | simpl in *; lia | intros _; left].
Qed.

(** On a cache that is set up, [Insert] reports whether the hash was in,
    keeps the capacity and its bound, and leaves the hash in the cache. *)
Lemma Insert_initialized (p : RecentWasms) (h : gmap positive BasicLRU)
    (c : positive) (lru : BasicLRU) (item : N) (retain : Z) :
  cache p = Some c -> h !! c = Some lru -> lru_ok lru ->
  exists lru',
    Insert p item retain h = Some (bool_decide (item ∈ items lru), <[c := lru']> h) /\
    lru_ok lru' /\ cap lru' = cap lru /\ (0 < cap lru -> item ∈ items lru').
Proof.
  intros Hc Hlru Hok. unfold Insert, Get. rewrite Hc, Hlru.
  destruct (bool_decide (item ∈ items lru)) eqn:E.
  - apply bool_decide_eq_true in E. by exists lru.
  - apply bool_decide_eq_false in E. exists (Add item lru).
    split; [done |]. by apply Add_absent_ok.
Qed.

(** C6, what the code does: on a value as [NewRecentWasms] returns it, every
    [Insert] reports a miss, also for a hash inserted before, since the
    cache the method allocates is set in its own copy of the receiver. *)
Theorem Insert_uninitialized_never_hits :
  (fst <$> Inserts NewRecentWasms [(5%N, 4); (5%N, 4); (5%N, 4)] ∅
   = Some [false; false; false]) /\
  (forall (calls : list (N * Z)) (h : gmap positive BasicLRU),
     fst <$> Inserts NewRecentWasms calls h = Some (repeat false (length calls))).
Proof.
  assert (forall (calls : list (N * Z)) (h : gmap positive BasicLRU),
            fst <$> Inserts NewRecentWasms calls h = Some (repeat false (length calls)))
    as Hall.
  { induction calls as [| [item retain] rest IH]; intros h; simpl; [done |].
    rewrite Insert_uninitialized.
    specialize (IH (<[fresh (dom h) := Add item (NewBasicLRU retain)]> h)).
    destruct (Inserts NewRecentWasms rest _) as [[hits h2] |]; simpl in *; [| done].
    by injection IH as ->. }
  split; [apply (Hall [(5%N, 4); (5%N, 4); (5%N, 4)] ∅) | exact Hall].
Qed.





End RecentlyUsed.

(** * Further properties of the code *)

(** ** Stylus prefix: decoding *)

Section StylusPrefixMore.
Import Stylus.

(** X1: [StripStylusPrefix] fails, with the nil body, the zero dictionary
    and the error, exactly on the inputs that are shorter than four bytes or
    do not start with the discriminant. *)
Theorem StripStylusPrefix_error_iff (b : list byte) :
  StripStylusPrefix b = ([], x00, Some ErrNotStylusProgram) <->
  (length b < 4)%nat \/ take 3 b ≠ StylusDiscriminant.
Proof.
  unfold StripStylusPrefix.
  destruct (IsStylusProgram b) eqn:E; simpl.
  - apply IsStylusProgram_spec in E as [Hlen Hmagic]. split; [done |].
    intros [? | ?]; [lia | done].
  - split; [intros _ | done].
    destruct (Nat.lt_ge_cases (length b) 4) as [? | Hlen]; [by left | right].
    intros Hmagic.
    assert (IsStylusProgram b = true) as E' by (by apply IsStylusProgram_spec).
    congruence.
Qed.

(** An accepted input is a prefix for some dictionary and what follows it. *)
Lemma IsStylusProgram_shape (b : list byte) :
  IsStylusProgram b = true ->
  exists dictionary rest, b = NewStylusPrefix dictionary ++ rest.
Proof.
  intros [Hlen Hmagic]%IsStylusProgram_spec.
  destruct b as [| b0 [| b1 [| b2 [| b3 rest]]]]; simpl in Hlen; try lia.
  simpl in Hmagic. injection Hmagic as -> -> ->. by exists b3, rest.
Qed.

(** X2: what [StripStylusPrefix] returns without error puts the input
    together again: the prefix for the dictionary, then the body. *)
Theorem StripStylusPrefix_sound (b body : list byte) (dictionary : byte) :
  StripStylusPrefix b = (body, dictionary, None) ->
  b = NewStylusPrefix dictionary ++ body.
Proof.
  unfold StripStylusPrefix.
  destruct (IsStylusProgram b) eqn:E; simpl; [| discriminate].
  apply IsStylusProgram_shape in E as (d & rest & ->).
  unfold index. simpl. by intros [= <- <-].
Qed.

Lemma StripStylusPrefix_sound_witness :
  [xef; xf0; x00; x01; x2a; x2b] = NewStylusPrefix x01 ++ [x2a; x2b].
Proof.
  apply (StripStylusPrefix_sound [xef; xf0; x00; x01; x2a; x2b] [x2a; x2b] x01).
  reflexivity.
Defined.

(** X3: bytes appended to a Stylus program leave it a Stylus program with
    the same dictionary, and the body grows by just these bytes; and no
    input whose first byte is not [0xEF] is a Stylus program. *)
Theorem StripStylusPrefix_app (b body more : list byte) (dictionary : byte) :
  (StripStylusPrefix b = (body, dictionary, None) ->
   IsStylusProgram (b ++ more) = true /\
   StripStylusPrefix (b ++ more) = (body ++ more, dictionary, None)) /\
  (head b ≠ Some xef -> IsStylusProgram b = false).
Proof.
  split.
  - unfold StripStylusPrefix at 1.
    destruct (IsStylusProgram b) eqn:E; simpl; [| discriminate].
    apply IsStylusProgram_shape in E as (d & rest & ->).
    intros [= <- <-].
    change (drop 4 (NewStylusPrefix d ++ rest)) with rest.
    change (index (NewStylusPrefix d ++ rest) 3) with d.
    rewrite <- app_assoc. split.
    + apply IsStylusProgram_prefixed.
    + unfold StripStylusPrefix. by rewrite IsStylusProgram_prefixed.
  - intros Hhead. destruct (IsStylusProgram b) eqn:E; [| done].
    apply IsStylusProgram_spec in E as [Hlen Hmagic].
    destruct b as [| b0 rest]; simpl in *; [lia |].
    destruct rest as [| b1 [| b2 rest]]; simpl in *; try lia.
    injection Hmagic as -> -> ->. done.
Qed.

Lemma StripStylusPrefix_app_witness :
  (IsStylusProgram ([xef; xf0; x00; x01; x2a] ++ [x2b]) = true /\
   StripStylusPrefix ([xef; xf0; x00; x01; x2a] ++ [x2b]) = ([x2a] ++ [x2b], x01, None)) /\
  IsStylusProgram [x60; x80; x60; x40; x52] = false.
Proof.
  split.
  - apply (proj1 (StripStylusPrefix_app [xef; xf0; x00; x01; x2a] [x2a] [x2b] x01)).
    reflexivity.
  - apply (proj2 (StripStylusPrefix_app [x60; x80; x60; x40; x52] [] [] x00)).
    discriminate.
Defined.

End StylusPrefixMore.

(** ** Newly activated wasms: what a call does to the state *)

Section ActivationCycle.
Import Activation Cycle.

(** The outcomes of [ActivateWasm]: the state as it was, or the map passed
    in stored under a hash that was absent and one journal entry more. *)
Lemma ActivateWasm_outcomes (s : StateDB) (moduleHash : N)
    (asmMap : option (gmap string (list byte)))
    (first : option (option (gmap string (list byte)))) :
  let r := ActivateWasm_from first moduleHash asmMap s in
  r.1 = s \/
  (activatedWasms (arbExtraData s) !! moduleHash = None /\
   r = (journal_append (wasmActivation moduleHash)
          (set_activatedWasms
             (<[moduleHash := asmMap]> (activatedWasms (arbExtraData s))) s), None) /\
   match first with
   | Some previouslyActivated => targets asmMap = targets previouslyActivated
   | None => True
   end).
Proof.
  unfold ActivateWasm_from, insert_if_absent.
  destruct first as [prev |].
  - destruct (inconsistent asmMap prev) eqn:E; [by left |].
    apply inconsistent_false_iff in E.
    destruct (activatedWasms (arbExtraData s) !! moduleHash); [by left | by right].
  - destruct (activatedWasms (arbExtraData s) !! moduleHash); [by left | by right].
Qed.

(** X4: for a hash that is absent and a map with the targets of all maps
    stored so far (none, at the start of a cycle), [ActivateWasm] returns
    nil, stores the map under the hash, appends the activation entry to the
    journal and leaves the page counters as they were. *)
Theorem ActivateWasm_inserts (s : StateDB) (moduleHash : N)
    (asmMap : option (gmap string (list byte)))
    (first : option (option (gmap string (list byte)))) :
  activatedWasms (arbExtraData s) !! moduleHash = None ->
  (forall h b, activatedWasms (arbExtraData s) !! h = Some b -> targets b = targets asmMap) ->
  range_first (activatedWasms (arbExtraData s)) first ->
  exists s',
    ActivateWasm_from first moduleHash asmMap s = (s', None) /\
    activatedWasms (arbExtraData s') = <[moduleHash := asmMap]> (activatedWasms (arbExtraData s)) /\
    journal s' = journal s ++ [wasmActivation moduleHash] /\
    Pages.GetStylusPages s' = Pages.GetStylusPages s.
Proof.
  intros Habs Hsame Hfirst.
  exists (journal_append (wasmActivation moduleHash)
            (set_activatedWasms
               (<[moduleHash := asmMap]> (activatedWasms (arbExtraData s))) s)).
  split; [| done].
  unfold ActivateWasm_from, insert_if_absent. rewrite Habs.
  destruct first as [prev |]; [| done].
  destruct Hfirst as [h Hh].
  assert (inconsistent asmMap prev = false) as ->; [| done].
  apply inconsistent_false_iff. symmetry. by apply (Hsame h).
Qed.

Lemma ActivateWasm_inserts_witness :
  exists s',
    ActivateWasm 3%N (Some {[ "wavm" := [x03] ]}) state_two = (s', None) /\
    activatedWasms (arbExtraData s')
    = <[3%N := Some {[ "wavm" := [x03] ]}]> (activatedWasms (arbExtraData state_two)) /\
    journal s' = journal state_two ++ [wasmActivation 3%N] /\
    Pages.GetStylusPages s' = Pages.GetStylusPages state_two.
Proof.
  apply (ActivateWasm_inserts state_two 3%N (Some {[ "wavm" := [x03] ]})).
  - reflexivity.
  - intros h b Hh. unfold state_two in Hh. cbn [activatedWasms arbExtraData] in Hh.
    apply lookup_insert_Some in Hh as [[_ <-] | [_ Hh]]; [by vm_compute |].
    apply lookup_singleton_Some in Hh as [_ <-]. by vm_compute.
  - apply range_head_first.
Defined.

(** X5: whatever it is called with, [ActivateWasm] never overwrites or
    removes a stored map, changes the state only when it returns nil, and
    then by one new key and one journal entry for that key. *)
Theorem ActivateWasm_only_adds (s : StateDB) (moduleHash : N)
    (asmMap : option (gmap string (list byte)))
    (first : option (option (gmap string (list byte)))) :
  let s' := (ActivateWasm_from first moduleHash asmMap s).1 in
  let err := (ActivateWasm_from first moduleHash asmMap s).2 in
  (forall h b, activatedWasms (arbExtraData s) !! h = Some b ->
               activatedWasms (arbExtraData s') !! h = Some b) /\
  (err ≠ None -> s' = s) /\
  (s' = s \/
   (err = None /\
    activatedWasms (arbExtraData s) !! moduleHash = None /\
    activatedWasms (arbExtraData s') !! moduleHash = Some asmMap /\
    size (activatedWasms (arbExtraData s')) = S (size (activatedWasms (arbExtraData s))) /\
    journal s' = journal s ++ [wasmActivation moduleHash])).
Proof.
  intros s' err. subst s' err.
  destruct (ActivateWasm_outcomes s moduleHash asmMap first) as [Hsame | (Habs & -> & _)].
  - rewrite Hsame. split; [done |]. split; [done | by left].
  - simpl. split; [| split; [done | right]].
    + intros h b Hh. rewrite lookup_insert_ne; [done |]. intros <-. congruence.
    + rewrite lookup_insert_eq, map_size_insert_None by done. done.
Qed.

Lemma ActivateWasm_only_adds_witness :
  (ActivateWasm 1%N (Some {[ "arm64" := [x02] ]}) state_one).1 = state_one.
Proof.
  destruct (ActivateWasm_only_adds state_one 1%N (Some {[ "arm64" := [x02] ]})
              (range_head (activatedWasms (arbExtraData state_one)))) as (_ & Herr & _).
  apply Herr. vm_compute. discriminate.
Defined.

(** X6: [ActivateWasm] keeps the cycle consistent: when the stored maps all
    have the same targets before the call, they do after it, the new one
    included, whichever entry the range compared against. *)
Theorem ActivateWasm_keeps_same_targets (s : StateDB) (moduleHash : N)
    (asmMap : option (gmap string (list byte)))
    (first : option (option (gmap string (list byte)))) :
  same_targets (activatedWasms (arbExtraData s)) ->
  range_first (activatedWasms (arbExtraData s)) first ->
  same_targets
    (activatedWasms (arbExtraData (ActivateWasm_from first moduleHash asmMap s).1)).
Proof.
  intros Hinv Hfirst.
  destruct (ActivateWasm_outcomes s moduleHash asmMap first) as [-> | (Habs & -> & Hcons)];
    [done |].
  simpl.
  assert (forall h b, activatedWasms (arbExtraData s) !! h = Some b ->
                      targets b = targets asmMap) as Hall.
  { intros h b Hh. destruct first as [prev |]; simpl in Hfirst.
    - destruct Hfirst as [h0 Hh0]. rewrite Hcons. by apply (Hinv h h0).
    - rewrite Hfirst, lookup_empty in Hh. discriminate. }
  intros h1 h2 b1 b2 H1 H2.
  apply lookup_insert_Some in H1 as [[_ <-] | [_ H1]];
    apply lookup_insert_Some in H2 as [[_ <-] | [_ H2]].
  - done.
  - symmetry. by apply (Hall h2).
  - by apply (Hall h1).
  - by apply (Hinv h1 h2).
Qed.

Lemma ActivateWasm_keeps_same_targets_witness :
  same_targets
    (activatedWasms (arbExtraData (ActivateWasm 3%N (Some {[ "wavm" := [x03] ]}) state_two).1)).
Proof.
  apply (ActivateWasm_keeps_same_targets state_two 3%N (Some {[ "wavm" := [x03] ]})).
  - intros h1 h2 b1 b2 H1 H2. unfold state_two in H1, H2.
    cbn [activatedWasms arbExtraData] in H1, H2.
    apply lookup_insert_Some in H1 as [[_ <-] | [_ H1]];
      [| apply lookup_singleton_Some in H1 as [_ <-]];
      (apply lookup_insert_Some in H2 as [[_ <-] | [_ H2]];
       [| apply lookup_singleton_Some in H2 as [_ <-]]); by vm_compute.
  - apply range_head_first.
Defined.

(** X7: [ActivateWasm] keeps the journal in step with the map: when each
    stored hash has its activation entry in the journal before the call, it
    has after it, and no entry of the journal is lost. *)
Theorem ActivateWasm_keeps_journal (s : StateDB) (moduleHash : N)
    (asmMap : option (gmap string (list byte)))
    (first : option (option (gmap string (list byte)))) :
  journal_covers s ->
  journal_covers (ActivateWasm_from first moduleHash asmMap s).1 /\
  journal s `prefix_of` journal (ActivateWasm_from first moduleHash asmMap s).1.
Proof.
  intros Hcov.
  destruct (ActivateWasm_outcomes s moduleHash asmMap first) as [-> | (Habs & -> & _)];
    [done |].
  simpl. split.
  - intros h [b Hb]. unfold journal_append, set_activatedWasms in *. simpl in *.
    apply elem_of_app.
    apply lookup_insert_Some in Hb as [[<- _] | [_ Hb]].
    + right. apply list_elem_of_singleton. done.
    + left. apply Hcov. by eexists.
  - by apply prefix_app_r.
Qed.

Lemma ActivateWasm_keeps_journal_witness :
  journal_covers (ActivateWasm 3%N (Some {[ "wavm" := [x03] ]}) state_two).1 /\
  journal state_two `prefix_of`
    journal (ActivateWasm 3%N (Some {[ "wavm" := [x03] ]}) state_two).1.
Proof.
  apply (ActivateWasm_keeps_journal state_two 3%N (Some {[ "wavm" := [x03] ]})).
  intros h [b Hb]. unfold state_two in *. cbn [activatedWasms arbExtraData journal] in *.
  apply lookup_insert_Some in Hb as [[<- _] | [_ Hb]].
  - apply list_elem_of_In. right. left. reflexivity.
  - apply lookup_singleton_Some in Hb as [<- _]. apply list_elem_of_In. left. reflexivity.
Defined.

(** X22: as long as the stored maps all have the same targets, the outcome
    of [ActivateWasm] does not depend on which entry its range yields
    first: any two orders give the same state and the same error. *)
Theorem ActivateWasm_any_order (s : StateDB) (moduleHash : N)
    (asmMap : option (gmap string (list byte)))
    (first1 first2 : option (option (gmap string (list byte)))) :
  same_targets (activatedWasms (arbExtraData s)) ->
  range_first (activatedWasms (arbExtraData s)) first1 ->
  range_first (activatedWasms (arbExtraData s)) first2 ->
  ActivateWasm_from first1 moduleHash asmMap s
  = ActivateWasm_from first2 moduleHash asmMap s.
Proof.
  intros Hinv H1 H2. unfold ActivateWasm_from.
  destruct first1 as [p1 |], first2 as [p2 |]; simpl in H1, H2.
  - destruct H1 as [h1 Hp1], H2 as [h2 Hp2].
    assert (inconsistent asmMap p1 = inconsistent asmMap p2) as ->; [| done].
    pose proof (Hinv h1 h2 p1 p2 Hp1 Hp2) as Heq.
    destruct (inconsistent asmMap p2) eqn:E.
    + apply inconsistent_true_iff. apply inconsistent_true_iff in E. by rewrite Heq.
    + apply inconsistent_false_iff. apply inconsistent_false_iff in E. by rewrite Heq.
  - destruct H1 as [h1 Hp1]. rewrite H2, lookup_empty in Hp1. discriminate.
  - destruct H2 as [h2 Hp2]. rewrite H1, lookup_empty in Hp2. discriminate.
  - done.
Qed.

Lemma ActivateWasm_any_order_witness :
  ActivateWasm_from (Some (Some {[ "wavm" := [x01] ]})) 3%N (Some {[ "wavm" := [x03] ]}) state_two
  = ActivateWasm_from (Some (Some {[ "wavm" := [x02] ]})) 3%N (Some {[ "wavm" := [x03] ]}) state_two.
Proof.
  apply (ActivateWasm_any_order state_two 3%N (Some {[ "wavm" := [x03] ]})).
  - intros h1 h2 b1 b2 H1 H2. unfold state_two in H1, H2.
    cbn [activatedWasms arbExtraData] in H1, H2.
    apply lookup_insert_Some in H1 as [[_ <-] | [_ H1]];
      [| apply lookup_singleton_Some in H1 as [_ <-]];
      (apply lookup_insert_Some in H2 as [[_ <-] | [_ H2]];
       [| apply lookup_singleton_Some in H2 as [_ <-]]); by vm_compute.
  - exists 1%N. reflexivity.
  - exists 2%N. reflexivity.
Defined.

End ActivationCycle.

(** ** Looking up activated asm *)

Section Lookups.
Import Activation.

(** What the walk through the database returns, for any maps to start from. *)
Lemma collect_from_db_spec (s : StateDB) (moduleHash : N) (requested : list string) :
  forall (acc : gmap string (list byte)) (miss : list string),
    (collect_from_db s moduleHash requested acc miss).2
    = miss ++ List.filter (fun t => (length (db_ActivatedAsm s t moduleHash) =? 0)%nat) requested /\
    forall t,
      (collect_from_db s moduleHash requested acc miss).1 !! t
      = if bool_decide (t ∈ requested /\ db_ActivatedAsm s t moduleHash ≠ [])
        then Some (db_ActivatedAsm s t moduleHash) else acc !! t.
Proof.
  induction requested as [| t0 rest IH]; intros acc miss; cbn [collect_from_db List.filter].
  - split; [by rewrite app_nil_r |]. intros t.
    rewrite bool_decide_eq_false_2; [done |]. intros [Hin _]. by apply not_elem_of_nil in Hin.
  - destruct (db_ActivatedAsm s t0 moduleHash) as [| x asm] eqn:Edb;
      cbn [length Nat.ltb Nat.leb Nat.eqb].
    + destruct (IH acc (miss ++ [t0])) as [-> Hmap]. split; [by rewrite <- app_assoc |].
      intros t. rewrite Hmap. repeat case_bool_decide; try done.
      * exfalso. destruct H as [Hin Hne]. apply H0. split; [by right | done].
      * exfalso. destruct H0 as [[-> | Hin]%elem_of_cons Hne]; [congruence |]. by apply H.
    + destruct (IH (<[t0 := x :: asm]> acc) miss) as [-> Hmap]. split; [done |].
      intros t. rewrite Hmap. repeat case_bool_decide; try done.
      * exfalso. destruct H as [Hin Hne]. apply H0. split; [by right | done].
      * destruct H0 as [[-> | Hin]%elem_of_cons Hne].
        -- by rewrite lookup_insert_eq, Edb.
        -- exfalso. by apply H.
      * rewrite lookup_insert_ne; [done |]. intros <-. apply H0.
        split; [by left | by rewrite Edb].
Qed.

(** The three ways [ActivatedAsmMap] returns: a stored map that lacks a
    requested target, a stored map that has them all, or the database. *)
Lemma ActivatedAsmMap_cases (s : StateDB) (moduleHash : N) (requested : list string) :
  (exists asmMap t,
     activatedWasms (arbExtraData s) !! moduleHash = Some (Some asmMap) /\
     t ∈ requested /\ asmMap !! t = None /\
     ActivatedAsmMap requested moduleHash s
     = (None, requested, Some (ErrAsmMissing moduleHash t))) \/
  (exists asmMap,
     activatedWasms (arbExtraData s) !! moduleHash = Some (Some asmMap) /\
     (forall t, t ∈ requested -> is_Some (asmMap !! t)) /\
     ActivatedAsmMap requested moduleHash s = (Some asmMap, [], None)) \/
  (default None (activatedWasms (arbExtraData s) !! moduleHash) = None /\
   exists found,
     ActivatedAsmMap requested moduleHash s
     = (Some found,
        List.filter (fun t => (length (db_ActivatedAsm s t moduleHash) =? 0)%nat) requested,
        None) /\
     forall t, found !! t
       = if bool_decide (t ∈ requested /\ db_ActivatedAsm s t moduleHash ≠ [])
         then Some (db_ActivatedAsm s t moduleHash) else None).
Proof.
  destruct (default None (activatedWasms (arbExtraData s) !! moduleHash))
    as [asmMap |] eqn:E.
  - assert (activatedWasms (arbExtraData s) !! moduleHash = Some (Some asmMap)) as Hin.
    { destruct (activatedWasms (arbExtraData s) !! moduleHash) as [[m |] |];
        simpl in E; congruence. }
    destruct (decide (Forall (fun t => is_Some (asmMap !! t)) requested)) as [Hall | Hnot].
    + right; left. exists asmMap. rewrite Forall_forall in Hall.
      split; [done |]. split; [done |]. by apply ActivatedAsmMap_complete.
    + left. apply not_Forall_Exists in Hnot; [| apply _].
      apply Exists_exists in Hnot as (t & Ht & Hnone).
      apply eq_None_not_Some in Hnone.
      destruct (ActivatedAsmMap_incomplete s moduleHash asmMap requested Hin)
        as (t' & ? & ? & ?); [by exists t |].
      by exists asmMap, t'.
  - right; right. split; [done |].
    destruct (collect_from_db_spec s moduleHash requested ∅ []) as [Hmiss Hmap].
    exists (collect_from_db s moduleHash requested ∅ []).1. split.
    + rewrite ActivatedAsmMap_from_db by done. by rewrite Hmiss.
    + intros t. rewrite Hmap, lookup_empty. done.
Qed.

Lemma ActivatedAsm_from_db (s : StateDB) (moduleHash : N) (t : string) :
  default None (activatedWasms (arbExtraData s) !! moduleHash) = None ->
  ActivatedAsm t moduleHash s = db_ActivatedAsm s t moduleHash.
Proof.
  unfold ActivatedAsm.
  destruct (activatedWasms (arbExtraData s) !! moduleHash) as [[m |] |]; simpl; done.
Qed.

Lemma filter_empty_asm_elem (s : StateDB) (moduleHash : N) (requested : list string) (t : string) :
  t ∈ List.filter (fun t => (length (db_ActivatedAsm s t moduleHash) =? 0)%nat) requested
  <-> t ∈ requested /\ db_ActivatedAsm s t moduleHash = [].
Proof.
  rewrite !list_elem_of_In, filter_In, Nat.eqb_eq.
  split; intros [? Hlen]; (split; [done |]).
  - by destruct (db_ActivatedAsm s t moduleHash).
  - by rewrite Hlen.
Qed.

(** X8: with no map stored for the hash (or the nil map), [ActivatedAsmMap]
    returns no error, as missing exactly the requested targets the database
    has no asm for, in the order requested, and a map that holds for just
    the other requested targets what the database has. *)
Theorem ActivatedAsmMap_db_partition (s : StateDB) (moduleHash : N) (requested : list string) :
  default None (activatedWasms (arbExtraData s) !! moduleHash) = None ->
  exists found missing,
    ActivatedAsmMap requested moduleHash s = (Some found, missing, None) /\
    missing = List.filter (fun t => (length (db_ActivatedAsm s t moduleHash) =? 0)%nat) requested /\
    (forall t asm, found !! t = Some asm <->
       t ∈ requested /\ asm = db_ActivatedAsm s t moduleHash /\ asm ≠ []) /\
    (forall t, t ∈ requested -> (t ∈ missing <-> found !! t = None)).
Proof.
  intros Hnil.
  destruct (ActivatedAsmMap_cases s moduleHash requested)
    as [(m & t & Hin & _) | [(m & Hin & _) | (_ & found & Hres & Hmap)]];
    [by rewrite Hin in Hnil | by rewrite Hin in Hnil |].
  exists found, (List.filter (fun t => (length (db_ActivatedAsm s t moduleHash) =? 0)%nat) requested).
  split; [done |]. split; [done |]. split.
  - intros t asm. rewrite Hmap. case_bool_decide as Hc.
    + split; [intros [= <-]; by destruct Hc | by intros (_ & -> & _)].
    + split; [done |]. intros (? & -> & ?). by destruct Hc.
  - intros t Ht. rewrite filter_empty_asm_elem, Hmap. case_bool_decide as Hc.
    + split; [intros [_ Hempty]; by destruct Hc | done].
    + split; [done | intros _]. split; [done |].
      destruct (db_ActivatedAsm s t moduleHash) eqn:E; [done |].
      exfalso. by apply Hc.
Qed.

Lemma ActivatedAsmMap_db_partition_witness :
  exists found missing,
    ActivatedAsmMap ["host"; "arm64"] 5%N Cycle.state_two = (Some found, missing, None) /\
    missing = List.filter
                (fun t => (length (db_ActivatedAsm Cycle.state_two t 5%N) =? 0)%nat)
                ["host"; "arm64"] /\
    (forall t asm, found !! t = Some asm <->
       t ∈ ["host"; "arm64"] /\ asm = db_ActivatedAsm Cycle.state_two t 5%N /\ asm ≠ []) /\
    (forall t, t ∈ ["host"; "arm64"] -> (t ∈ missing <-> found !! t = None)).
Proof.
  apply (ActivatedAsmMap_db_partition Cycle.state_two 5%N ["host"; "arm64"]).
  reflexivity.
Defined.

(** X9: the bulk lookup and the single lookup agree: when
    [ActivatedAsmMap] returns without error, each requested target is
    either in the returned map, with the asm [ActivatedAsm] returns for it,
    or among the missing ones, and then [ActivatedAsm] returns no bytes. *)
Theorem ActivatedAsmMap_agrees_with_ActivatedAsm (s : StateDB) (moduleHash : N)
    (requested missing : list string) (found : option (gmap string (list byte))) :
  ActivatedAsmMap requested moduleHash s = (found, missing, None) ->
  exists asmMap, found = Some asmMap /\
    forall t, t ∈ requested ->
      ((t ∉ missing) /\ asmMap !! t = Some (ActivatedAsm t moduleHash s)) \/
      (t ∈ missing /\ asmMap !! t = None /\ ActivatedAsm t moduleHash s = []).
Proof.
  intros Hres.
  destruct (ActivatedAsmMap_cases s moduleHash requested)
    as [(m & t & _ & _ & _ & Herr) | [(m & Hin & Hall & Hok) | (Hnil & m & Hok & Hmap)]].
  - rewrite Herr in Hres. discriminate.
  - rewrite Hok in Hres. injection Hres as <- <-. exists m. split; [done |].
    intros t Ht. left. split; [apply not_elem_of_nil |].
    destruct (Hall t Ht) as [asm Hasm]. unfold ActivatedAsm. rewrite Hin. simpl.
    by rewrite Hasm.
  - rewrite Hok in Hres. injection Hres as <- <-. exists m. split; [done |].
    intros t Ht. rewrite filter_empty_asm_elem, Hmap, ActivatedAsm_from_db by done.
    case_bool_decide as Hc.
    + left. split; [| done]. intros [_ Hempty]. by destruct Hc.
    + right. assert (db_ActivatedAsm s t moduleHash = []) as Hempty.
      { destruct (db_ActivatedAsm s t moduleHash) eqn:E; [done |].
        exfalso. by apply Hc. }
      done.
Qed.

Lemma ActivatedAsmMap_agrees_with_ActivatedAsm_witness :
  exists asmMap : gmap string (list byte),
    Some ({[ "wavm" := [x01] ]} : gmap string (list byte)) = Some asmMap /\
    forall t, t ∈ ["wavm"] ->
      ((t ∉ []) /\ asmMap !! t = Some (ActivatedAsm t 1%N Cycle.state_two)) \/
      (t ∈ [] /\ asmMap !! t = None /\ ActivatedAsm t 1%N Cycle.state_two = []).
Proof.
  apply (ActivatedAsmMap_agrees_with_ActivatedAsm Cycle.state_two 1%N ["wavm"] []
           (Some {[ "wavm" := [x01] ]})).
  reflexivity.
Defined.

(** X10: after [ActivateWasm] stored a map for a hash, [ActivatedAsm]
    returns for this hash the asm of the map where it has the target, and
    what the database has where it has not; for every other hash it returns
    what it returned before. *)
Theorem ActivatedAsm_after_ActivateWasm (s s' : StateDB) (moduleHash : N)
    (asmMap : option (gmap string (list byte)))
    (first : option (option (gmap string (list byte)))) :
  activatedWasms (arbExtraData s) !! moduleHash = None ->
  ActivateWasm_from first moduleHash asmMap s = (s', None) ->
  (forall t, ActivatedAsm t moduleHash s'
             = default (db_ActivatedAsm s t moduleHash) (entries asmMap !! t)) /\
  (forall t h, h ≠ moduleHash -> ActivatedAsm t h s' = ActivatedAsm t h s).
Proof.
  intros Habs. unfold ActivateWasm_from, insert_if_absent. rewrite Habs.
  intros Hrun.
  assert (s' = journal_append (wasmActivation moduleHash)
                 (set_activatedWasms
                    (<[moduleHash := asmMap]> (activatedWasms (arbExtraData s))) s)) as ->.
  { destruct first as [prev |]; [destruct (inconsistent asmMap prev) |]; congruence. }
  unfold ActivatedAsm. simpl. split.
  - intros t. rewrite lookup_insert_eq. by destruct (entries asmMap !! t).
  - intros t h Hne. by rewrite lookup_insert_ne.
Qed.

Lemma ActivatedAsm_after_ActivateWasm_witness :
  let s' := (ActivateWasm 3%N (Some {[ "wavm" := [x03] ]}) Cycle.state_two).1 in
  (forall t, ActivatedAsm t 3%N s'
             = default (db_ActivatedAsm Cycle.state_two t 3%N)
                 (entries (Some {[ "wavm" := [x03] ]}) !! t)) /\
  (forall t h, h ≠ 3%N -> ActivatedAsm t h s' = ActivatedAsm t h Cycle.state_two).
Proof.
  apply (ActivatedAsm_after_ActivateWasm Cycle.state_two _ 3%N (Some {[ "wavm" := [x03] ]})
           (range_head (activatedWasms (arbExtraData Cycle.state_two)))).
  - reflexivity.
  - reflexivity.
Defined.

End Lookups.

(** ** Recording the wasms a block uses *)

Section RecordingPrograms.
Import Activation Recording.

(** When [RecordProgram] returns nil for some targets, [ActivatedAsmMap]
    returned a map with an entry for each of them. *)
Lemma RecordProgram_nil_inv (requested : list string) (moduleHash : N) (s : StateDB)
    (userWasms userWasms' : option (gmap N (option (gmap string (list byte))))) :
  requested ≠ [] ->
  RecordProgram requested moduleHash s userWasms = (userWasms', None) ->
  exists asmMap,
    ActivatedAsmMap requested moduleHash s = (Some asmMap, [], None) /\
    userWasms' = (fun u => <[moduleHash := Some asmMap]> u) <$> userWasms /\
    forall t, t ∈ requested -> asmMap !! t = Some (ActivatedAsm t moduleHash s).
Proof.
  intros Hne. unfold RecordProgram.
  destruct requested as [| t0 rest]; [done |]. cbn [length Nat.eqb].
  destruct (ActivatedAsmMap_cases s moduleHash (t0 :: rest))
    as [(m & t & _ & _ & _ & ->) | [(m & Hin & Hall & ->) | (Hnil & m & -> & Hmap)]].
  - simpl. discriminate.
  - simpl. intros Hrun. exists m. split; [done |]. split.
    + destruct userWasms; simpl; congruence.
    + intros t Ht. destruct (Hall t Ht) as [asm Hasm].
      unfold ActivatedAsm. rewrite Hin. simpl. by rewrite Hasm.
  - set (missing := List.filter _ (t0 :: rest)).
    assert (forall t, t ∈ missing <->
              t ∈ t0 :: rest /\ db_ActivatedAsm s t moduleHash = []) as Hmiss
      by apply filter_empty_asm_elem.
    destruct missing as [| t1 missing]; [| simpl; discriminate].
    simpl. intros Hrun. exists m. split; [done |]. split.
    + destruct userWasms; simpl; congruence.
    + intros t Ht. rewrite Hmap, ActivatedAsm_from_db by done.
      rewrite bool_decide_eq_true_2; [done |]. split; [done |].
      intros Hempty. apply (not_elem_of_nil t). apply Hmiss. done.
Qed.

(** X11: when [RecordProgram] returns nil for a list of targets that is
    not empty and recording was started, it has stored under the hash, and
    only there, a map that holds for each requested target the asm that
    [ActivatedAsm] returns for it. *)
Theorem RecordProgram_records (requested : list string) (moduleHash : N) (s : StateDB)
    (u : gmap N (option (gmap string (list byte))))
    (userWasms' : option (gmap N (option (gmap string (list byte))))) :
  requested ≠ [] ->
  RecordProgram requested moduleHash s (Some u) = (userWasms', None) ->
  exists asmMap,
    userWasms' = Some (<[moduleHash := Some asmMap]> u) /\
    forall t, t ∈ requested -> asmMap !! t = Some (ActivatedAsm t moduleHash s).
Proof.
  intros Hne Hrun.
  destruct (RecordProgram_nil_inv _ _ _ _ _ Hne Hrun) as (asmMap & _ & -> & Hall).
  by exists asmMap.
Qed.

Lemma RecordProgram_records_witness :
  exists asmMap : gmap string (list byte),
    (RecordProgram ["wavm"] 1%N Cycle.state_two (Some ∅)).1
    = Some (<[1%N := Some asmMap]> ∅) /\
    forall t, t ∈ ["wavm"] -> asmMap !! t = Some (ActivatedAsm t 1%N Cycle.state_two).
Proof.
  apply (RecordProgram_records ["wavm"] 1%N Cycle.state_two ∅).
  - discriminate.
  - reflexivity.
Defined.

(** X12: [RecordProgram] leaves the recorded wasms as they are when it
    returns an error, when recording was not started, and when no target
    is asked for (then it returns nil); and it never touches the record of
    another hash. *)
Theorem RecordProgram_leaves (requested : list string) (moduleHash : N) (s : StateDB)
    (userWasms : option (gmap N (option (gmap string (list byte))))) :
  let r := RecordProgram requested moduleHash s userWasms in
  (r.2 ≠ None -> r.1 = userWasms) /\
  (userWasms = None -> r.1 = None) /\
  (requested = [] -> r = (userWasms, None)) /\
  (forall h, h ≠ moduleHash ->
     (fun u => u !! h) <$> r.1 = (fun u => u !! h) <$> userWasms).
Proof.
  unfold RecordProgram.
  destruct (length requested =? 0)%nat eqn:Elen.
  - simpl. repeat split; done.
  - apply Nat.eqb_neq in Elen.
    destruct (ActivatedAsmMap requested moduleHash s) as [[asmMap missing] err].
    destruct (bool_decide (err ≠ None) || (0 <? length missing)%nat).
    + simpl. repeat split; try done. by intros ->.
    + destruct userWasms as [u |]; simpl; repeat split; try done;
        try (by intros ->).
      intros h Hh. by rewrite lookup_insert_ne.
Qed.

Lemma RecordProgram_leaves_witness :
  (RecordProgram ["host"] 1%N state_one (Some ∅)).1 = Some ∅.
Proof.
  destruct (RecordProgram_leaves ["host"] 1%N state_one (Some ∅)) as (Herr & _).
  apply Herr. vm_compute. discriminate.
Defined.

(** X13: once recording is started, a wasm that [ActivateWasm] just stored
    with a map that has every requested target is recorded by
    [RecordProgram] with that very map; the database is not asked. *)
Theorem RecordProgram_after_ActivateWasm (s s' : StateDB) (moduleHash : N)
    (asmMap : gmap string (list byte)) (requested : list string)
    (first : option (option (gmap string (list byte))))
    (userWasms : option (gmap N (option (gmap string (list byte))))) :
  activatedWasms (arbExtraData s) !! moduleHash = None ->
  ActivateWasm_from first moduleHash (Some asmMap) s = (s', None) ->
  requested ≠ [] ->
  (forall t, t ∈ requested -> is_Some (asmMap !! t)) ->
  RecordProgram requested moduleHash s' (StartRecording userWasms)
  = (Some {[ moduleHash := Some asmMap ]}, None).
Proof.
  intros Habs Hact Hne Hall.
  apply ActivateWasm_stores in Hact as [Hin _]; [| done].
  unfold RecordProgram, StartRecording.
  destruct requested as [| t0 rest]; [done |]. cbn [length Nat.eqb].
  rewrite (ActivatedAsmMap_complete s' moduleHash asmMap (t0 :: rest) Hin Hall).
  simpl. by rewrite insert_empty.
Qed.

Lemma RecordProgram_after_ActivateWasm_witness :
  RecordProgram ["wavm"] 3%N
    (ActivateWasm 3%N (Some {[ "wavm" := [x03] ]}) Cycle.state_two).1
    (StartRecording None)
  = (Some {[ 3%N := Some {[ "wavm" := [x03] ]} ]}, None).
Proof.
  apply (RecordProgram_after_ActivateWasm Cycle.state_two _ 3%N {[ "wavm" := [x03] ]}
           ["wavm"] (range_head (activatedWasms (arbExtraData Cycle.state_two))) None).
  - reflexivity.
  - reflexivity.
  - discriminate.
  - intros t Ht. apply list_elem_of_singleton in Ht as ->. by eexists.
Defined.

End RecordingPrograms.

(** ** Stylus page counters: how calls compose *)

Section StylusPagesMore.
Import Pages.

(** The counters after [AddStylusPages], for counters in range. *)
Lemma AddStylusPages_pages (s : StateDB) (new : Z) :
  pages_in_range s -> 0 <= new <= uint16_max ->
  AddStylusPages new s
  = ((openWasmPages (arbExtraData s), everWasmPages (arbExtraData s)),
     set_pages (Z.min (openWasmPages (arbExtraData s) + new) uint16_max)
       (Z.max (everWasmPages (arbExtraData s))
          (Z.min (openWasmPages (arbExtraData s) + new) uint16_max)) s).
Proof.
  intros [Ho He] Hnew. unfold AddStylusPages, GetStylusPages.
  destruct s as [[d o e m] j f]. simpl in *.
  by rewrite MaxInt_max, SaturatingUAdd_min.
Qed.

(** X14: opening [a] pages and then [b] pages leaves the state that opening
    them in one call leaves, the sum cut off at 65535 as the counters are. *)
Theorem AddStylusPages_twice (s : StateDB) (a b : Z) :
  pages_in_range s -> 0 <= a <= uint16_max -> 0 <= b <= uint16_max ->
  (AddStylusPages b (AddStylusPages a s).2).2
  = (AddStylusPages (SaturatingUAdd a b) s).2.
Proof.
  intros Hs Ha Hb.
  assert (0 <= SaturatingUAdd a b <= uint16_max) as Hab.
  { rewrite SaturatingUAdd_min by done. unfold uint16_max in *. lia. }
  rewrite (AddStylusPages_pages s a), (AddStylusPages_pages s (SaturatingUAdd a b)) by done.
  rewrite AddStylusPages_pages.
  - destruct s as [[d o e m] j f]. destruct Hs as [Ho He].
    unfold set_pages, uint16_max in *. simpl in *.
    rewrite SaturatingUAdd_min by (unfold uint16_max; lia). unfold uint16_max.
    do 2 f_equal; lia.
  - destruct s as [[d o e m] j f]. destruct Hs as [Ho He].
    unfold pages_in_range, uint16_max in *. simpl in *. lia.
  - done.
Qed.

Lemma AddStylusPages_twice_witness :
  (AddStylusPages 65000 (AddStylusPages 600 Activation.state_empty).2).2
  = (AddStylusPages (SaturatingUAdd 600 65000) Activation.state_empty).2.
Proof.
  apply (AddStylusPages_twice Activation.state_empty 600 65000);
    unfold pages_in_range, uint16_max; simpl; lia.
Defined.

(** X15: handing the open count that [AddStylusPages] returned back to
    [SetStylusPagesOpen] restores the open counter, and the ever counter
    keeps the peak reached in between. *)
Theorem SetStylusPagesOpen_restores (s : StateDB) (new : Z) :
  pages_in_range s -> 0 <= new <= uint16_max ->
  let r := AddStylusPages new s in
  GetStylusPages (SetStylusPagesOpen r.1.1 r.2)
  = (openWasmPages (arbExtraData s),
     Z.max (everWasmPages (arbExtraData s))
       (Z.min (openWasmPages (arbExtraData s) + new) 65535)).
Proof.
  intros Hs Hnew r. subst r. rewrite AddStylusPages_pages by done.
  by destruct s as [[d o e m] j f].
Qed.

Lemma SetStylusPagesOpen_restores_witness :
  let r := AddStylusPages 128 Activation.state_empty in
  GetStylusPages (SetStylusPagesOpen r.1.1 r.2) = (0, Z.max 0 (Z.min (0 + 128) 65535)).
Proof.
  apply (SetStylusPagesOpen_restores Activation.state_empty 128);
    unfold pages_in_range, uint16_max; simpl; lia.
Defined.

(** X16: neither [AddStylusPages] nor [AddStylusPagesEver] lowers a
    counter, and both keep them in the [uint16] range; after
    [AddStylusPages] the ever counter is no less than the open one, and
    [AddStylusPagesEver] adds to the ever counter only, cut off at 65535. *)
Theorem page_counters_grow (s : StateDB) (new : Z) :
  pages_in_range s -> 0 <= new <= uint16_max ->
  (let s1 := (AddStylusPages new s).2 in
   pages_in_range s1 /\
   openWasmPages (arbExtraData s) <= openWasmPages (arbExtraData s1) /\
   everWasmPages (arbExtraData s) <= everWasmPages (arbExtraData s1) /\
   openWasmPages (arbExtraData s1) <= everWasmPages (arbExtraData s1)) /\
  (let s2 := AddStylusPagesEver new s in
   pages_in_range s2 /\
   openWasmPages (arbExtraData s2) = openWasmPages (arbExtraData s) /\
   everWasmPages (arbExtraData s2) = Z.min (everWasmPages (arbExtraData s) + new) 65535).
Proof.
  intros Hs Hnew. split.
  - rewrite AddStylusPages_pages by done.
    destruct s as [[d o e m] j f]. destruct Hs as [Ho He].
    unfold pages_in_range, uint16_max in *. simpl in *. lia.
  - destruct s as [[d o e m] j f]. destruct Hs as [Ho He].
    unfold AddStylusPagesEver, pages_in_range in *. simpl in *.
    rewrite SaturatingUAdd_min by done. unfold uint16_max in *. lia.
Qed.

Lemma page_counters_grow_witness :
  (let s1 := (AddStylusPages 7 Activation.state_empty).2 in
   pages_in_range s1 /\
   openWasmPages (arbExtraData Activation.state_empty) <= openWasmPages (arbExtraData s1) /\
   everWasmPages (arbExtraData Activation.state_empty) <= everWasmPages (arbExtraData s1) /\
   openWasmPages (arbExtraData s1) <= everWasmPages (arbExtraData s1)) /\
  (let s2 := AddStylusPagesEver 7 Activation.state_empty in
   pages_in_range s2 /\
   openWasmPages (arbExtraData s2) = openWasmPages (arbExtraData Activation.state_empty) /\
   everWasmPages (arbExtraData s2)
   = Z.min (everWasmPages (arbExtraData Activation.state_empty) + 7) 65535).
Proof.
  apply (page_counters_grow Activation.state_empty 7);
    unfold pages_in_range, uint16_max; simpl; lia.
Defined.

End StylusPagesMore.

(** ** Iterating over the storage: which leaves are visited *)

Section StorageLeaves.
Import Storage Leaves.

Section Walk.
Variable GetKey : list byte -> list byte.
Variable rlp_Split : list byte -> list byte * option error.

(** With the callback that always asks for more, leaves that decode are
    walked through one by one, each adding its pair to the log. *)
Lemma iterate_visit_all_app (so : stateObject) (pre rest : list (list byte * list byte)) :
  Forall (decodable GetKey rlp_Split so) pre ->
  forall log0 : list (N * N * bool),
    iterate GetKey rlp_Split (logging visit_all) so (pre ++ rest) (tt, log0)
    = iterate GetKey rlp_Split (logging visit_all) so rest
        (tt, log0 ++ omap (entry_of GetKey rlp_Split so) pre).
Proof.
  induction 1 as [| [it_Key it_Value] pre Hleaf Hpre IH]; intros log0; simpl.
  - by rewrite app_nil_r.
  - unfold decodable, entry_of in *. simpl in *.
    destruct (dirtyStorage so !! BytesToHash (GetKey it_Key)) as [value |] eqn:Hd.
    + unfold logging at 1, visit_all at 1. simpl. rewrite IH. by rewrite <- app_assoc.
    + destruct it_Value as [| x raw]; simpl; [apply IH |].
      specialize (Hleaf eq_refl). 
      destruct (rlp_Split (x :: raw)) as [content err]. simpl in *.
      rewrite Hleaf by done.
      unfold logging at 1, visit_all at 1. simpl. rewrite IH. by rewrite <- app_assoc.
Qed.

End Walk.

(** X17: with the callback that always asks for more and leaves that all
    decode, [forEachStorage] returns nil after one call per leaf whose key
    is dirty (with the dirty value, whatever the leaf stores) or whose value
    is not empty (with the decoded value), in the order of the trie; a
    leaf with an empty value and a key that is not dirty is passed over. *)
Theorem forEachStorage_visits (GetKey : list byte -> list byte)
    (rlp_Split : list byte -> list byte * option error)
    (so : stateObject) (tr : Trie) (leaves : list (list byte * list byte)) :
  getTrie so = inr tr ->
  NodeIterator tr = inr leaves ->
  Forall (decodable GetKey rlp_Split so) leaves ->
  forEachStorage GetKey rlp_Split (logging visit_all) (Some so) (tt, [])
  = ((tt, omap (entry_of GetKey rlp_Split so) leaves), None).
Proof.
  intros Htrie Hit Hdec. unfold forEachStorage. rewrite Htrie, Hit.
  rewrite <- (app_nil_r leaves) at 1.
  by rewrite iterate_visit_all_app.
Qed.

Lemma forEachStorage_visits_witness :
  forEachStorage (fun b => b) Split (logging visit_all) (Some account_mixed) (tt, [])
  = ((tt, [(1%N, 17%N, true); (2%N, 4660%N, true)]), None).
Proof.
  apply (forEachStorage_visits (fun b => b) Split account_mixed
           (mkTrie (inr [([x01], [x10]); ([x03], []); ([x02], [x82; x12; x34])]))
           [([x01], [x10]); ([x03], []); ([x02], [x82; x12; x34])]).
  - reflexivity.
  - reflexivity.
  - repeat constructor; intros ? ?; reflexivity || done.
Defined.

(** X18: when the value of a leaf whose key is not dirty fails to decode,
    [forEachStorage] returns that error; the callback has been called for
    the leaves before it and is not called for any leaf after it. *)
Theorem forEachStorage_decode_error (GetKey : list byte -> list byte)
    (rlp_Split : list byte -> list byte * option error)
    (so : stateObject) (tr : Trie) (pre post : list (list byte * list byte))
    (it_Key it_Value content : list byte) (err : error) :
  getTrie so = inr tr ->
  NodeIterator tr = inr (pre ++ (it_Key, it_Value) :: post) ->
  Forall (decodable GetKey rlp_Split so) pre ->
  dirtyStorage so !! BytesToHash (GetKey it_Key) = None ->
  it_Value ≠ [] ->
  rlp_Split it_Value = (content, Some err) ->
  forEachStorage GetKey rlp_Split (logging visit_all) (Some so) (tt, [])
  = ((tt, omap (entry_of GetKey rlp_Split so) pre), Some err).
Proof.
  intros Htrie Hit Hdec Hclean Hne Hsplit. unfold forEachStorage. rewrite Htrie, Hit.
  rewrite iterate_visit_all_app by done. simpl. rewrite Hclean.
  destruct it_Value as [| x raw]; [done |]. simpl. by rewrite Hsplit.
Qed.

Lemma forEachStorage_decode_error_witness :
  forEachStorage (fun b => b) Split (logging visit_all) (Some account_broken) (tt, [])
  = ((tt, omap (entry_of (fun b => b) Split account_broken) [([x01], [x10])]),
     Some ErrCanonSize).
Proof.
  apply (forEachStorage_decode_error (fun b => b) Split account_broken
           (mkTrie (inr leaves_broken))
           [([x01], [x10])] [([x04], [x05])] [x02] [x81; x05] []
           ErrCanonSize).
  - reflexivity.
  - reflexivity.
  - repeat constructor; intros ? ?; reflexivity || done.
  - reflexivity.
  - discriminate.
  - reflexivity.
Defined.



End StorageLeaves.

(** ** Self-destructed accounts *)

Section SelfDestructed.
Import SelfDestructs.

Lemma fold_visit_filter (stateObjects : gmap N accountObject) (order : list N) :
  forall acc,
    fold_left (visit stateObjects) order acc
    = acc ++ filter (fun addr => selfDestructed <$> stateObjects !! addr = Some true) order.
Proof.
  induction order as [| addr order IH]; intros acc; simpl.
  - by rewrite app_nil_r.
  - rewrite IH. unfold visit.
    destruct (stateObjects !! addr) as [[[|]] |] eqn:E; simpl.
    + rewrite filter_cons_True by (by rewrite E). by rewrite <- app_assoc.
    + rewrite filter_cons_False; [done |]. rewrite E. simpl. congruence.
    + rewrite filter_cons_False; [done |]. by rewrite E.
Qed.

(** X20: in whichever order the range walks through the dirtied addresses,
    [GetSelfDestructs] returns, each once, exactly the dirtied addresses
    that have a state object flagged as self-destructed; two orders give
    the same addresses, in another order at most. *)
Theorem GetSelfDestructs_spec (dirties : gmap N nat)
    (stateObjects : gmap N accountObject) (order : list N) :
  range_order dirties order ->
  (forall addr, addr ∈ GetSelfDestructs_in order stateObjects <->
     is_Some (dirties !! addr) /\
     exists obj, stateObjects !! addr = Some obj /\ selfDestructed obj = true) /\
  NoDup (GetSelfDestructs_in order stateObjects) /\
  GetSelfDestructs_in order stateObjects ≡ₚ GetSelfDestructs dirties stateObjects.
Proof.
  unfold range_order, GetSelfDestructs, GetSelfDestructs_in. intros Horder.
  rewrite !fold_visit_filter. simpl. split; [| split].
  - intros addr. rewrite list_elem_of_filter, Horder, list_elem_of_fmap. split.
    + intros [Hsd [[a n] [-> Hin]]]. apply elem_of_map_to_list in Hin. simpl in *.
      split; [by eexists |].
      destruct (stateObjects !! a) as [obj |]; [| done].
      exists obj. split; [done |]. by injection Hsd.
    + intros [[n Hn] (obj & Hobj & Hsd)]. split; [by rewrite Hobj, <- Hsd |].
      exists (addr, n). split; [done |]. by apply elem_of_map_to_list.
  - apply NoDup_filter. rewrite Horder. apply NoDup_fst_map_to_list.
  - by rewrite Horder.
Qed.

Lemma GetSelfDestructs_spec_witness :
  (forall addr, addr ∈ GetSelfDestructs_in [3%N; 1%N; 2%N] objects_three <->
     is_Some (dirties_three !! addr) /\
     exists obj, objects_three !! addr = Some obj /\ selfDestructed obj = true) /\
  NoDup (GetSelfDestructs_in [3%N; 1%N; 2%N] objects_three) /\
  GetSelfDestructs_in [3%N; 1%N; 2%N] objects_three
  ≡ₚ GetSelfDestructs dirties_three objects_three.
Proof.
  apply (GetSelfDestructs_spec dirties_three objects_three [3%N; 1%N; 2%N]).
  unfold range_order.
  assert ((map_to_list dirties_three).*1 = [2%N; 3%N; 1%N]) as -> by reflexivity.
  apply (bool_decide_unpack _). vm_compute. exact I.
Defined.

End SelfDestructed.

(** ** Recently used wasms: a cache that is set up *)

Section RecentlyUsedMore.
Import Recent.

(** X21: on a value that points to a cache with room for one key at least
    (the cache as modelled from the spec), [Insert] reports whether the
    hash was in the cache, a second [Insert] of the same hash reports a hit,
    the argument [retain] plays no part in either call, and the cache keeps
    its capacity and stays within it. *)
Theorem Insert_initialized_twice (p : RecentWasms) (h : gmap positive BasicLRU)
    (c : positive) (lru : BasicLRU) (item : N) (retain1 retain2 : Z) :
  cache p = Some c -> h !! c = Some lru -> lru_ok lru -> 0 < cap lru ->
  exists h1 h2,
    Insert p item retain1 h = Some (bool_decide (item ∈ items lru), h1) /\
    Insert p item retain2 h1 = Some (true, h2) /\
    valid p h2 /\ capacity_of p h2 = Some (cap lru) /\ item ∈ members p h2.
Proof.
  intros Hc Hlru Hok Hpos.
  destruct (Insert_initialized p h c lru item retain1 Hc Hlru Hok)
    as (lru1 & Hins1 & Hok1 & Hcap1 & Hin1).
  specialize (Hin1 Hpos).
  destruct (Insert_initialized p (<[c := lru1]> h) c lru1 item retain2 Hc)
    as (lru2 & Hins2 & Hok2 & Hcap2 & Hin2); [by rewrite lookup_insert_eq | done |].
  rewrite bool_decide_eq_true_2 in Hins2 by done.
  exists (<[c := lru1]> h), (<[c := lru2]> (<[c := lru1]> h)).
  split; [done |]. split; [done |].
  unfold valid, capacity_of, members, view. rewrite Hc, lookup_insert_eq. simpl.
  split; [by exists lru2 |]. split; [congruence |].
  apply elem_of_list_to_set. apply Hin2. lia.
Qed.

Lemma Insert_initialized_twice_witness :
  exists h1 h2,
    Insert cache_at_one 9%N 0 heap_one
    = Some (bool_decide (9%N ∈ items (mkBasicLRU 2 [8%N; 7%N])), h1) /\
    Insert cache_at_one 9%N 5 h1 = Some (true, h2) /\
    valid cache_at_one h2 /\
    capacity_of cache_at_one h2 = Some (cap (mkBasicLRU 2 [8%N; 7%N])) /\
    9%N ∈ members cache_at_one h2.
Proof.
  apply (Insert_initialized_twice cache_at_one heap_one 1%positive
           (mkBasicLRU 2 [8%N; 7%N]) 9%N 0 5).
  - reflexivity.
  - reflexivity.
  - split; [apply (bool_decide_unpack _); vm_compute; exact I | simpl; lia].
  - simpl. lia.
Defined.

End RecentlyUsedMore.
